(** * AgentBridge CLI scheduler: budget throttle, retry controller, response
      cache, usage ledger and bounded dispatcher.

    The development embeds the TypeScript sources
    [model-integration.ts] (class [ModelIntegration]),
    [cache-middleware.ts] ([SQLiteCacheManager], [cacheMiddleware]) and
    [semantic-enricher.ts] ([SemanticEnricher]) and states the scheduler
    properties over that embedding.

    Conventions.
    - JavaScript numbers that hold counts, token amounts and epoch
      milliseconds are integers of [Z]; [NaN] is outside the model, except
      for the concurrency option of the CLI, where [None] stands for it.
      The token estimate that [generateObject] derives from character
      counts is kept in binary64 doubles, as its rounding reaches the
      result.
    - Strings are held in UTF-8; [jsLength] gives the [length] JavaScript
      sees, in UTF-16 code units.
    - Money is kept in units of 10^-8 dollar, so that every entry of the
      pricing table is an integer ([3.0 / 1_000_000] dollar is [300]).
    - [Date.now()], [Math.random()] and the outcomes of the calls of the
      SDK's [generateObject] are read from oracles indexed by the number of
      reads made so far. One such call is one step of the model: the SDK's
      own retry ([maxRetries: 1]) and its validation of the answer happen
      inside the step, so a step can stand for two HTTP requests.
    - Objects used as dictionaries are [gmap string _]. *)

From Stdlib Require Import ZArith QArith Qminmax Qround Lia Lqa.
From Stdlib Require PrimFloat SpecFloat FloatOps Uint63.
From stdpp Require Import gmap strings list fin_maps sorting pretty.

Local Open Scope Z_scope.

(** ** JavaScript built-ins the code relies on *)

(** [parseInt(s, 10)] and [new Date(s).getTime()] are taken as an interface. *)
Class JsRuntime := {
  parseInt : string -> Z;
  dateGetTime : string -> Z;
}.

(** Truthiness of an optional string: [undefined] and [""] are falsy. *)
Definition truthy (o : option string) : bool :=
  match o with
  | Some s => negb (String.eqb s "")
  | None => false
  end.

(** [o || d] on an optional string. *)
Definition orElse (o : option string) (d : string) : string :=
  match o with
  | Some s => if String.eqb s "" then d else s
  | None => d
  end.

(** [s.length]: the number of UTF-16 code units of a string held in UTF-8.
    A continuation byte adds nothing, the lead byte of a sequence of two or
    three bytes is one code unit, and the lead byte of a sequence of four
    bytes is a surrogate pair. *)
Fixpoint jsLength (s : string) : Z :=
  match s with
  | EmptyString => 0
  | String c rest =>
      let byte := Z.of_N (Ascii.N_of_ascii c) in
      (if byte <? 128 then 1
       else if byte <? 192 then 0
       else if byte <? 240 then 1
       else 2) + jsLength rest
  end.

(** Binary64 arithmetic on character counts. *)
Module Double.
Import PrimFloat.
Local Open Scope float_scope.

(** A length as a JavaScript number (lengths are far below 2^53). *)
Definition ofLength (n : Z) : float := of_uint63 (Uint63.of_Z n).

(** [Math.ceil] of a finite double [(-1)^s * m * 2^e]. *)
Definition ceil (x : float) : Z :=
  match FloatOps.Prim2SF x with
  | SpecFloat.S754_finite negative m e =>
      let whole :=
        (if 0 <=? e then Z.pos m * 2 ^ e else Z.pos m / 2 ^ (- e))%Z in
      let integral :=
        ((0 <=? e) || (Z.pos m mod 2 ^ (- e) =? 0))%Z in
      if negative then (- whole)%Z
      else if integral then whole else (whole + 1)%Z
  | _ => 0%Z
  end.

(** [length / 3]. *)
Definition third (n : Z) : float := ofLength n / 3.

(** [Math.ceil(x * 1.2)]. *)
#[warnings="-inexact-float"]
Definition buffered (x : float) : Z := ceil (x * 1.2).

End Double.

(** A decimal reader, used to run the model on concrete headers. *)
Definition digitValue (c : Ascii.ascii) : option Z :=
  let n := Z.of_N (Ascii.N_of_ascii c) in
  if (48 <=? n) && (n <=? 57) then Some (n - 48) else None.

Fixpoint readDigits (acc : Z) (s : string) : Z :=
  match s with
  | EmptyString => acc
  | String c rest =>
      match digitValue c with
      | Some d => readDigits (10 * acc + d) rest
      | None => acc
      end
  end.

Definition decimalRuntime : JsRuntime :=
  {| parseInt := readDigits 0; dateGetTime := readDigits 0 |}.

(** ** Budget tracker and preemptive throttle (model-integration.ts) *)

Module Budget.

Record Window := {
  limit : Z;
  remaining : Z;
  resetTime : Z;
}.

Record RateLimitBudget := {
  requests : Window;
  inputTokens : Window;
  outputTokens : Window;
  initialized : bool;
}.

Abbreviation RateLimitHeaders := (gmap string string).
Abbreviation Budgets := (gmap string RateLimitBudget).

Definition MAX_SAFE_INTEGER : Z := 9007199254740991.

(** [createUninitializedBudget], with [now] the value of [Date.now()]. *)
Definition createUninitializedBudget (now : Z) : RateLimitBudget :=
  let resetTime := now + 60000 in
  {| requests :=
       {| limit := MAX_SAFE_INTEGER; remaining := MAX_SAFE_INTEGER;
          resetTime := resetTime |};
     inputTokens :=
       {| limit := MAX_SAFE_INTEGER; remaining := MAX_SAFE_INTEGER;
          resetTime := resetTime |};
     outputTokens :=
       {| limit := MAX_SAFE_INTEGER; remaining := MAX_SAFE_INTEGER;
          resetTime := resetTime |};
     initialized := false |}.

Section Update.
Context {rt : JsRuntime}.

(** The local closure [parseResetTime] of [updateRateLimitBudgets]. *)
Definition parseResetTime (now : Z) (resetTimeStr : option string) : Z :=
  if truthy resetTimeStr
  then match resetTimeStr with
       | Some s => dateGetTime s
       | None => now + 60000
       end
  else now + 60000.

(** One of the three "update ... limits if present" blocks. *)
Definition updateWindow (now : Z) (headers : RateLimitHeaders)
    (kLimit kRemaining kReset dflt : string) (old : Window) : Window :=
  if truthy (headers !! kLimit) && truthy (headers !! kRemaining)
  then {| limit := parseInt (orElse (headers !! kLimit) dflt);
          remaining := parseInt (orElse (headers !! kRemaining) dflt);
          resetTime := parseResetTime now (headers !! kReset) |}
  else old.

(** [updateRateLimitBudgets(modelName, headers)]; [None] stands for a
    null or undefined [headers].  [createdAt] is the clock value seen by
    [createUninitializedBudget] when the model has no entry yet, [now] the
    one read right after. *)
Definition updateRateLimitBudgets (createdAt now : Z) (modelName : string)
    (headers : option RateLimitHeaders) (budgets : Budgets) : Budgets :=
  match headers with
  | None => budgets
  | Some headers =>
      let budget :=
        match budgets !! modelName with
        | Some b => b
        | None => createUninitializedBudget createdAt
        end in
      let requests' :=
        updateWindow now headers
          "anthropic-ratelimit-requests-limit"
          "anthropic-ratelimit-requests-remaining"
          "anthropic-ratelimit-requests-reset" "50" (requests budget) in
      let inputTokens' :=
        updateWindow now headers
          "anthropic-ratelimit-input-tokens-limit"
          "anthropic-ratelimit-input-tokens-remaining"
          "anthropic-ratelimit-input-tokens-reset" "30000"
          (inputTokens budget) in
      let outputTokens' :=
        updateWindow now headers
          "anthropic-ratelimit-output-tokens-limit"
          "anthropic-ratelimit-output-tokens-remaining"
          "anthropic-ratelimit-output-tokens-reset" "10000"
          (outputTokens budget) in
      <[modelName :=
          {| requests := requests';
             inputTokens := inputTokens';
             outputTokens := outputTokens';
             initialized := true |}]> budgets
  end.

End Update.

Record CheckResult := {
  shouldWait : bool;
  waitTimeMs : Z;
  reason : string;
}.

(** "Check if any budgets have been reset", for one sub-window. *)
Definition rollWindow (now : Z) (w : Window) : Window :=
  if resetTime w <=? now
  then {| limit := limit w; remaining := limit w; resetTime := now + 60000 |}
  else w.

Definition rollBudget (now : Z) (b : RateLimitBudget) : RateLimitBudget :=
  {| requests := rollWindow now (requests b);
     inputTokens := rollWindow now (inputTokens b);
     outputTokens := rollWindow now (outputTokens b);
     initialized := initialized b |}.

Definition spend (amount : Z) (w : Window) : Window :=
  {| limit := limit w;
     remaining := Z.max 0 (remaining w - amount);
     resetTime := resetTime w |}.

Definition nonEmpty (s : string) : bool := negb (String.eqb s "").

(** The body of [checkRateLimitBudget] once the budget is known to be
    initialized: roll-over, the three checks, the optimistic reservation. *)
Definition checkInitialized (now : Z) (estimatedInputTokens
    estimatedOutputTokens : Z) (budget : RateLimitBudget)
    : CheckResult * RateLimitBudget :=
  let waitTimeMs := 0 in
  let reason := ""%string in
  let budget := rollBudget now budget in
  let '(waitTimeMs, reason) :=
    if remaining (requests budget) <? 1
    then (Z.max waitTimeMs (resetTime (requests budget) - now),
          "Request limit reached"%string)
    else (waitTimeMs, reason) in
  let '(waitTimeMs, reason) :=
    if remaining (inputTokens budget) <? estimatedInputTokens
    then (Z.max waitTimeMs (resetTime (inputTokens budget) - now),
          if nonEmpty reason
          then (reason ++ ", input token limit")%string
          else "Input token limit reached"%string)
    else (waitTimeMs, reason) in
  let '(waitTimeMs, reason) :=
    if remaining (outputTokens budget) <? estimatedOutputTokens
    then (Z.max waitTimeMs (resetTime (outputTokens budget) - now),
          if nonEmpty reason
          then (reason ++ ", output token limit")%string
          else "Output token limit reached"%string)
    else (waitTimeMs, reason) in
  let budget :=
    if waitTimeMs =? 0
    then {| requests := spend 1 (requests budget);
            inputTokens := spend estimatedInputTokens (inputTokens budget);
            outputTokens := spend estimatedOutputTokens (outputTokens budget);
            initialized := initialized budget |}
    else budget in
  ({| shouldWait := 0 <? waitTimeMs;
      waitTimeMs := Z.min waitTimeMs 60000;
      reason := reason |}, budget).

Definition noRateLimitData : CheckResult :=
  {| shouldWait := false; waitTimeMs := 0;
     reason := "No rate limit data yet" |}.

(** [checkRateLimitBudget]: the budget object is mutated in place, so the
    updated record is written back under the same key. *)
Definition checkRateLimitBudget (now : Z) (modelName : string)
    (estimatedInputTokens estimatedOutputTokens : Z) (budgets : Budgets)
    : CheckResult * Budgets :=
  match budgets !! modelName with
  | None => (noRateLimitData, budgets)
  | Some budget =>
      if negb (initialized budget) then (noRateLimitData, budgets)
      else
        let '(r, budget') :=
          checkInitialized now estimatedInputTokens estimatedOutputTokens
            budget in
        (r, <[modelName := budget']> budgets)
  end.

End Budget.

(** ** Usage accountant (model-integration.ts) *)

Module Usage.

Record Pricing := {
  input : Z;
  output : Z;
  cacheWrite : Z;
  cacheRead : Z;
}.

(** The [PRICING] table, in units of 10^-8 dollar per token. *)
Definition PRICING : gmap string Pricing :=
  <["claude-3-7-sonnet-latest" :=
      {| input := 300; output := 1500; cacheWrite := 375; cacheRead := 30 |}]>
  (<["claude-3-5-haiku-latest" :=
      {| input := 80; output := 400; cacheWrite := 100; cacheRead := 8 |}]>
   ∅).

Record ModelUsage := {
  promptTokens : Z;
  completionTokens : Z;
  cost : Z;
  cachedRequests : Z;
  liveRequests : Z;
  cacheCreationTokens : Z;
  cacheReadTokens : Z;
  costWithoutCaching : Z;
  cachingSavings : Z;
  rateLimitRetries : Z;
  preemptiveDelays : Z;
}.

(** The initial value of the [usage] field. *)
Definition emptyUsage : ModelUsage :=
  {| promptTokens := 0; completionTokens := 0; cost := 0;
     cachedRequests := 0; liveRequests := 0; cacheCreationTokens := 0;
     cacheReadTokens := 0; costWithoutCaching := 0; cachingSavings := 0;
     rateLimitRetries := 0; preemptiveDelays := 0 |}.

(** Truthiness of an optional number: [undefined] and [0] are falsy. *)
Definition numTruthy (o : option Z) : bool :=
  match o with
  | Some n => negb (n =? 0)
  | None => false
  end.

Definition numOr (o : option Z) (d : Z) : Z :=
  match o with
  | Some n => if n =? 0 then d else n
  | None => d
  end.

(** [updateUsage(modelName, promptTokens, completionTokens, fromCache,
    cacheCreationTokens, cacheReadTokens)]. *)
Definition updateUsage (modelName : string) (promptTokens' completionTokens' : Z)
    (fromCache : bool) (cacheCreationTokens' cacheReadTokens' : option Z)
    (u : ModelUsage) : ModelUsage :=
  match PRICING !! modelName with
  | None => u
  | Some pricing =>
      let promptTotal := promptTokens u + promptTokens' in
      let completionTotal := completionTokens u + completionTokens' in
      let cached := if fromCache then cachedRequests u + 1 else cachedRequests u in
      let live := if fromCache then liveRequests u else liveRequests u + 1 in
      let creation :=
        if numTruthy cacheCreationTokens'
        then cacheCreationTokens u + default 0 cacheCreationTokens'
        else cacheCreationTokens u in
      let read :=
        if numTruthy cacheReadTokens'
        then cacheReadTokens u + default 0 cacheReadTokens'
        else cacheReadTokens u in
      let inputCost := promptTokens' * input pricing in
      let outputCost := completionTokens' * output pricing in
      let cacheWriteCost :=
        if numTruthy cacheCreationTokens'
        then default 0 cacheCreationTokens' * cacheWrite pricing else 0 in
      let cacheReadCost :=
        if numTruthy cacheReadTokens'
        then default 0 cacheReadTokens' * cacheRead pricing else 0 in
      let cost' := cost u + (inputCost + outputCost + cacheWriteCost + cacheReadCost) in
      let costWithoutCaching' :=
        promptTotal * input pricing + completionTotal * output pricing in
      let cachingSavings' := costWithoutCaching' - cost' in
      {| promptTokens := promptTotal;
         completionTokens := completionTotal;
         cost := cost';
         cachedRequests := cached;
         liveRequests := live;
         cacheCreationTokens := creation;
         cacheReadTokens := read;
         costWithoutCaching := costWithoutCaching';
         cachingSavings := cachingSavings';
         rateLimitRetries := rateLimitRetries u;
         preemptiveDelays := preemptiveDelays u |}
  end.

(** [this.usage.rateLimitRetries = (this.usage.rateLimitRetries || 0) + 1]. *)
Definition countRetry (u : ModelUsage) : ModelUsage :=
  {| promptTokens := promptTokens u;
     completionTokens := completionTokens u;
     cost := cost u;
     cachedRequests := cachedRequests u;
     liveRequests := liveRequests u;
     cacheCreationTokens := cacheCreationTokens u;
     cacheReadTokens := cacheReadTokens u;
     costWithoutCaching := costWithoutCaching u;
     cachingSavings := cachingSavings u;
     rateLimitRetries := rateLimitRetries u + 1;
     preemptiveDelays := preemptiveDelays u |}.

(** [this.usage.preemptiveDelays = (this.usage.preemptiveDelays || 0) + 1]. *)
Definition countDelay (u : ModelUsage) : ModelUsage :=
  {| promptTokens := promptTokens u;
     completionTokens := completionTokens u;
     cost := cost u;
     cachedRequests := cachedRequests u;
     liveRequests := liveRequests u;
     cacheCreationTokens := cacheCreationTokens u;
     cacheReadTokens := cacheReadTokens u;
     costWithoutCaching := costWithoutCaching u;
     cachingSavings := cachingSavings u;
     rateLimitRetries := rateLimitRetries u;
     preemptiveDelays := preemptiveDelays u + 1 |}.

(** The operations that write the ledger during one process lifetime. *)
Inductive LedgerOp :=
| Record_ (modelName : string) (promptTokens completionTokens : Z)
    (fromCache : bool) (cacheCreationTokens cacheReadTokens : option Z)
| Retry
| Delay.

Definition applyOp (u : ModelUsage) (op : LedgerOp) : ModelUsage :=
  match op with
  | Record_ m p c fc cc cr => updateUsage m p c fc cc cr u
  | Retry => countRetry u
  | Delay => countDelay u
  end.

Definition applyOps (ops : list LedgerOp) (u : ModelUsage) : ModelUsage :=
  fold_left applyOp ops u.

(** Token amounts reported by the service are never negative. *)
Definition optNonneg (o : option Z) : Prop :=
  match o with
  | Some n => 0 <= n
  | None => True
  end.

Definition wellFormedOp (op : LedgerOp) : Prop :=
  match op with
  | Record_ _ p c _ cc cr => 0 <= p /\ 0 <= c /\ optNonneg cc /\ optNonneg cr
  | Retry | Delay => True
  end.

(** The operation concerns the model [m] (or no model at all). *)
Definition onModel (m : string) (op : LedgerOp) : Prop :=
  match op with
  | Record_ m' _ _ _ _ _ => m' = m
  | Retry | Delay => True
  end.

(** The no-cache cost is the running token totals at the plain rates of
    the model [m]. *)
Definition repricedAt (m : string) (u : ModelUsage) : Prop :=
  match PRICING !! m with
  | Some pricing =>
      costWithoutCaching u
      = promptTokens u * input pricing + completionTokens u * output pricing
  | None => costWithoutCaching u = 0
  end.

(** The nine counters that are accumulated by addition. *)
Definition additiveLe (u u' : ModelUsage) : Prop :=
  promptTokens u <= promptTokens u'
  /\ completionTokens u <= completionTokens u'
  /\ cachedRequests u <= cachedRequests u'
  /\ liveRequests u <= liveRequests u'
  /\ cacheCreationTokens u <= cacheCreationTokens u'
  /\ cacheReadTokens u <= cacheReadTokens u'
  /\ rateLimitRetries u <= rateLimitRetries u'
  /\ preemptiveDelays u <= preemptiveDelays u'
  /\ cost u <= cost u'.

End Usage.

(** ** Response cache (cache-middleware.ts) and the request loop
       (model-integration.ts) *)

Module Integration.
Import Budget Usage.

(** What [ModelIntegration.generateObject] reads of the SDK result. *)
Record TokenUsage := {
  usagePromptTokens : Z;
  usageCompletionTokens : Z;
}.

Record GenerateResult := {
  object : string;
  responseHeaders : option RateLimitHeaders;
  resultUsage : option TokenUsage;
  cacheCreationInputTokens : option Z;
  cacheReadInputTokens : option Z;
}.

(** Exceptions that travel through [generateObject]. *)
Inductive Error :=
| ApiRateLimit (headers : option RateLimitHeaders)
| ApiFailure (message : string)
| CacheFailure (message : string)
| RateLimitExceeded (modelName : string) (retryAttempt : Z).

(** The answer to one [generateObject] call of the SDK that reaches the
    service (the SDK's own single retry, [maxRetries: 1], is part of that
    one answer): a result, a [RetryError] whose last error is an
    [APICallError] mentioning 429 or "rate limit" (with the response
    headers of that error), or any other rejection. *)
Inductive ServiceReply :=
| Reply (r : GenerateResult)
| RateLimitReply (headers : option RateLimitHeaders)
| OtherFailure (message : string).

(** The table [llm_cache] and the condition of the database file: when a
    fault is set, the corresponding statement throws. *)
Record Row := {
  value : GenerateResult;
  timestamp : Z;
}.

Record Store := {
  rows : gmap string Row;
  readFault : option string;
  writeFault : option string;
}.

Record World := {
  nowAt : nat -> Z;
  randomAt : nat -> Q;
  replyAt : nat -> ServiceReply;
}.

Record State := {
  usage : ModelUsage;
  rateLimitBudgets : Budgets;
  store : Store;
  clockReads : nat;
  randomDraws : nat;
  liveCalls : nat;
  sleeps : list Q;
}.

Inductive Result (A : Type) :=
| Ok (a : A)
| Err (e : Error).
Arguments Ok {A} a.
Arguments Err {A} e.

(** State and exception monad of the class instance. *)
Definition M (A : Type) : Type := State -> Result A * State.

Definition ret {A} (a : A) : M A := fun st => (Ok a, st).
Definition throw {A} (e : Error) : M A := fun st => (Err e, st).
Definition bind {A B} (c : M A) (k : A -> M B) : M B :=
  fun st =>
    match c st with
    | (Ok a, st') => k a st'
    | (Err e, st') => (Err e, st')
    end.

Notation "'do' x <- c ; k" := (bind c (fun x => k))
  (at level 10, x name, c at level 100, k at level 200).
Notation "'exec' c ; k" := (bind c (fun _ => k))
  (at level 10, c at level 100, k at level 200).

Definition setUsage (f : ModelUsage -> ModelUsage) : M unit :=
  fun st =>
    (Ok tt,
     {| usage := f (usage st); rateLimitBudgets := rateLimitBudgets st;
        store := store st; clockReads := clockReads st;
        randomDraws := randomDraws st; liveCalls := liveCalls st;
        sleeps := sleeps st |}).

Definition setBudgets (f : Budgets -> Budgets) : M unit :=
  fun st =>
    (Ok tt,
     {| usage := usage st; rateLimitBudgets := f (rateLimitBudgets st);
        store := store st; clockReads := clockReads st;
        randomDraws := randomDraws st; liveCalls := liveCalls st;
        sleeps := sleeps st |}).

Definition setStore (f : Store -> Store) : M unit :=
  fun st =>
    (Ok tt,
     {| usage := usage st; rateLimitBudgets := rateLimitBudgets st;
        store := f (store st); clockReads := clockReads st;
        randomDraws := randomDraws st; liveCalls := liveCalls st;
        sleeps := sleeps st |}).

(** [sleep(ms)] from utils.ts: the requested delay is logged. *)
Definition sleep (ms : Q) : M unit :=
  fun st =>
    (Ok tt,
     {| usage := usage st; rateLimitBudgets := rateLimitBudgets st;
        store := store st; clockReads := clockReads st;
        randomDraws := randomDraws st; liveCalls := liveCalls st;
        sleeps := sleeps st ++ [ms] |}).

Section WithWorld.
Context {rt : JsRuntime} (w : World).

(** [Date.now()]. *)
Definition dateNow : M Z :=
  fun st =>
    (Ok (nowAt w (clockReads st)),
     {| usage := usage st; rateLimitBudgets := rateLimitBudgets st;
        store := store st; clockReads := S (clockReads st);
        randomDraws := randomDraws st; liveCalls := liveCalls st;
        sleeps := sleeps st |}).

(** [Math.random()]. *)
Definition mathRandom : M Q :=
  fun st =>
    (Ok (randomAt w (randomDraws st)),
     {| usage := usage st; rateLimitBudgets := rateLimitBudgets st;
        store := store st; clockReads := clockReads st;
        randomDraws := S (randomDraws st); liveCalls := liveCalls st;
        sleeps := sleeps st |}).

(** [doGenerate()]: the call that goes past the cache. Its outcome is that
    of the SDK call it belongs to (see [ServiceReply]), and [liveCalls]
    counts these SDK calls, not the HTTP requests behind them. *)
Definition doGenerate : M GenerateResult :=
  fun st =>
    let st' :=
      {| usage := usage st; rateLimitBudgets := rateLimitBudgets st;
         store := store st; clockReads := clockReads st;
         randomDraws := randomDraws st; liveCalls := S (liveCalls st);
         sleeps := sleeps st |} in
    match replyAt w (liveCalls st) with
    | Reply r => (Ok r, st')
    | RateLimitReply h => (Err (ApiRateLimit h), st')
    | OtherFailure m => (Err (ApiFailure m), st')
    end.

(** [SQLiteCacheManager.get]. *)
Definition cacheGet (key : string) : M (option GenerateResult) :=
  fun st =>
    match readFault (store st) with
    | Some m => (Err (CacheFailure m), st)
    | None => (Ok (value <$> rows (store st) !! key), st)
    end.

(** [SQLiteCacheManager.set]: INSERT OR REPLACE. *)
Definition cacheSet (key : string) (v : GenerateResult) : M unit :=
  do timestamp <- dateNow ;
  fun st =>
    match writeFault (store st) with
    | Some m => (Err (CacheFailure m), st)
    | None =>
        setStore (fun s =>
          {| rows := <[key := {| value := v; timestamp := timestamp |}]> (rows s);
             readFault := readFault s; writeFault := writeFault s |}) st
    end.

(** [cacheMiddleware.wrapGenerate]; [cacheKey] is [JSON.stringify(params)]. *)
Definition wrapGenerate (cacheKey : string) : M GenerateResult :=
  do cached <- cacheGet cacheKey ;
  match cached with
  | Some c => ret c
  | None =>
      do result <- doGenerate ;
      exec cacheSet cacheKey result ;
      ret result
  end.

(** The wrapped language model: the middleware list is [[cacheMiddleware]]
    when [cacheEnabled] and empty otherwise. *)
Definition callModel (cacheEnabled : bool) (cacheKey : string) : M GenerateResult :=
  if cacheEnabled then wrapGenerate cacheKey else doGenerate.

(** [updateRateLimitBudgets] with its clock reads. *)
Definition updateRateLimitBudgetsM (modelName : string)
    (headers : option RateLimitHeaders) : M unit :=
  match headers with
  | None => ret tt
  | Some _ =>
      fun st =>
        match rateLimitBudgets st !! modelName with
        | Some _ =>
            (do now <- dateNow ;
             setBudgets (updateRateLimitBudgets now now modelName headers)) st
        | None =>
            (do createdAt <- dateNow ;
             do now <- dateNow ;
             setBudgets (updateRateLimitBudgets createdAt now modelName headers)) st
        end
  end.

(** [checkRateLimitBudget] with its clock read. *)
Definition checkRateLimitBudgetM (modelName : string)
    (estimatedInputTokens estimatedOutputTokens : Z) : M CheckResult :=
  do now <- dateNow ;
  fun st =>
    let '(r, budgets') :=
      checkRateLimitBudget now modelName estimatedInputTokens
        estimatedOutputTokens (rateLimitBudgets st) in
    (Ok r,
     {| usage := usage st; rateLimitBudgets := budgets';
        store := store st; clockReads := clockReads st;
        randomDraws := randomDraws st; liveCalls := liveCalls st;
        sleeps := sleeps st |}).

(** Exponential backoff of [handleRateLimit], in seconds. *)
Definition backoffSeconds (retryAttempt : Z) (random : Q) : Q :=
  let baseDelay := inject_Z (2 ^ retryAttempt * 1000) in
  let jitter := (random * 1000)%Q in
  Qmin 60 ((baseDelay + jitter) / 1000)%Q.

(** [handleRateLimit(error, retryAttempt, modelName)]; [headers] is
    [error.responseHeaders]. The result is the delay in milliseconds. *)
Definition handleRateLimit (maxRateLimitRetries : Z)
    (headers : option RateLimitHeaders) (retryAttempt : Z)
    (modelName : string) : M Q :=
  exec setUsage countRetry ;
  if maxRateLimitRetries <=? retryAttempt
  then throw (RateLimitExceeded modelName retryAttempt)
  else
    do retryDelaySeconds <-
      (match headers with
      | Some h =>
          if truthy (h !! "retry-after")
          then
            exec updateRateLimitBudgetsM modelName headers ;
            ret (inject_Z (parseInt (orElse (h !! "retry-after") "0")))
          else
            do random <- mathRandom ;
            ret (backoffSeconds retryAttempt random)
      | None =>
          do random <- mathRandom ;
          ret (backoffSeconds retryAttempt random)
      end) ;
    ret ((retryDelaySeconds + (1 # 2)) * 1000)%Q.

(** The options of [generateObject] that the scheduler looks at. [messages]
    holds the stringified content of each message; [callParams] is the
    serialisation of the call options that the middleware uses as key. *)
Record Options := {
  useSmart : bool;
  estimatedInputTokens : option Z;
  estimatedOutputTokens : option Z;
  messages : option (list string);
  prompt : option string;
  callParams : string;
}.

Definition modelNameOf (o : Options) : string :=
  if useSmart o then "claude-3-7-sonnet-latest" else "claude-3-5-haiku-latest".

(** "Estimate token usage based on input", with the 1.2 buffer and the
    round-up. An explicit estimate and the default are integers: for them
    the double product [e * 1.2] has the ceiling of the exact one (for
    [e] below 2^50), which is used. The sums of thirds are computed in
    doubles, as the code does. *)
Definition estimatedInput (o : Options) : Z :=
  if numTruthy (estimatedInputTokens o)
  then Qceiling (inject_Z (default 0%Z (estimatedInputTokens o)) * (12 # 10))%Q
  else match messages o with
       | Some msgs =>
           Double.buffered
             (fold_left
                (fun sum content =>
                   PrimFloat.add sum (Double.third (jsLength content)))
                msgs (Double.ofLength 0))
       | None =>
           if truthy (prompt o)
           then Double.buffered
                  (Double.third (jsLength (default ""%string (prompt o))))
           else Qceiling (1000 * (12 # 10))%Q
       end.

Definition estimatedOutput (o : Options) : Z :=
  numOr (estimatedOutputTokens o) 500.

(** The bookkeeping after a successful call. *)
Definition recordSuccess (modelName : string) (result : GenerateResult) : M unit :=
  exec (match responseHeaders result with
        | Some h => updateRateLimitBudgetsM modelName (Some h)
        | None => ret tt
        end) ;
  match resultUsage result with
  | Some u =>
      setUsage (updateUsage modelName
                  (usagePromptTokens u) (usageCompletionTokens u) false
                  (Some (default 0 (cacheCreationInputTokens result)))
                  (Some (default 0 (cacheReadInputTokens result))))
  | None => ret tt
  end.

(** "Check if we need to wait before making the request": the first
    statements of the loop body. *)
Definition preemptiveThrottle (modelName : string) (estIn estOut : Z) : M unit :=
  do chk <- checkRateLimitBudgetM modelName estIn estOut ;
  if shouldWait chk
  then (exec setUsage countDelay ; sleep (inject_Z (waitTimeMs chk)))
  else ret tt.

(** The [while (true)] loop of [generateObject]. [None] is returned when
    [fuel] iterations did not settle the request. *)
Fixpoint requestLoop (fuel : nat) (cacheEnabled : bool)
    (maxRateLimitRetries : Z) (modelName cacheKey : string)
    (estIn estOut : Z) (retryAttempt : Z) (st : State)
    : option (Result string * State) :=
  match fuel with
  | O => None
  | S fuel' =>
      match preemptiveThrottle modelName estIn estOut st with
      | (Err e, st1) => Some (Err e, st1)
      | (Ok _, st1) =>
          match callModel cacheEnabled cacheKey st1 with
          | (Ok result, st2) =>
              match recordSuccess modelName result st2 with
              | (Ok _, st3) => Some (Ok (object result), st3)
              | (Err e, st3) => Some (Err e, st3)
              end
          | (Err (ApiRateLimit headers), st2) =>
              match handleRateLimit maxRateLimitRetries headers retryAttempt
                      modelName st2 with
              | (Ok waitTime, st3) =>
                  requestLoop fuel' cacheEnabled maxRateLimitRetries modelName
                    cacheKey estIn estOut (retryAttempt + 1)
                    (snd (sleep waitTime st3))
              | (Err e, st3) => Some (Err e, st3)
              end
          | (Err e, st2) => Some (Err e, st2)
          end
      end
  end.

(** [generateObject(schema, options)]. *)
Definition generateObject (fuel : nat) (cacheEnabled : bool)
    (maxRateLimitRetries : Z) (o : Options) (st : State)
    : option (Result string * State) :=
  requestLoop fuel cacheEnabled maxRateLimitRetries (modelNameOf o)
    (callParams o) (estimatedInput o) (estimatedOutput o) 0 st.

End WithWorld.

Definition MAX_RATE_LIMIT_RETRIES : Z := 5.

(** The constructor: [options.maxRateLimitRetries ?? MAX_RATE_LIMIT_RETRIES]
    and the two uninitialized budgets, each created with its own clock read. *)
Definition configuredRetries (o : option Z) : Z := default MAX_RATE_LIMIT_RETRIES o.

Definition initialBudgets (now1 now2 : Z) : Budgets :=
  <["claude-3-7-sonnet-latest" := createUninitializedBudget now1]>
  (<["claude-3-5-haiku-latest" := createUninitializedBudget now2]> ∅).

End Integration.

(** ** Bounded work dispatcher (semantic-enricher.ts) *)

Module Dispatcher.

(** How one part of an enhanced endpoint was obtained. *)
Inductive Enriched :=
| FromModel (payload : string)
| Fallback.

Section Enricher.
Context {Endpoint : Type} {eqEndpoint : EqDecision Endpoint}.

Record EnhancedEndpoint := {
  source : Endpoint;
  enhancedInfo : string;
  enhancedParameters : Enriched;
  enhancedResponses : Enriched;
}.

(** What awaiting [this.enhanceEndpoint(endpoint)] can lead to: the promise
    resolves, the promise rejects, or the process is terminated. *)
Inductive TaskOutcome :=
| Resolved (e : EnhancedEndpoint)
| Rejected (message : string)
| ProcessExit (code : Z).

(** [enhanceParameters] and [enhanceResponses]: a failed model call is
    logged and replaced by the fallback description. *)
Definition enhanceWithFallback (call : Integration.Result string) : Enriched :=
  match call with
  | Integration.Ok payload => FromModel payload
  | Integration.Err _ => Fallback
  end.

(** [enhanceEndpoint], given the results of the three model calls it makes
    (description, parameters, responses). Its [catch] logs the error and
    calls [process.exit(1)]. *)
Definition enhanceEndpoint (endpoint : Endpoint)
    (description parameters responses : Integration.Result string)
    : TaskOutcome :=
  match description with
  | Integration.Ok info =>
      Resolved {| source := endpoint;
                  enhancedInfo := info;
                  enhancedParameters := enhanceWithFallback parameters;
                  enhancedResponses := enhanceWithFallback responses |}
  | Integration.Err _ => ProcessExit 1
  end.

(** [processEndpointsWithConcurrency] is embedded as a machine: [start] is
    its state when [Promise.all] is awaited, [settle] one resumption of a
    [processQueue] coroutine. Such a coroutine is either suspended on the
    [await] of the task it claimed, or has left its [while] loop. *)
Inductive Worker :=
| Awaiting (currentIndex : Z) (endpoint : Endpoint)
| Returned.

(** The local variables of [processEndpointsWithConcurrency]. [claims] is a
    history variable: who shifted which endpoint off the queue, in order. *)
Record Pool := {
  queue : list Endpoint;
  results : list EnhancedEndpoint;
  inProgress : gset Z;
  completed : nat;
  workers : list Worker;
  claims : list (nat * Endpoint);
}.

Inductive Machine :=
| Running (p : Pool)
| Exited (code : Z) (p : Pool).

(** [Array.prototype.indexOf]: first position, or -1. *)
Fixpoint indexOfFrom (i : Z) (l : list Endpoint) (x : Endpoint) : Z :=
  match l with
  | [] => -1
  | y :: l' => if decide (y = x) then i else indexOfFrom (i + 1) l' x
  end.

Definition indexOf (l : list Endpoint) (x : Endpoint) : Z := indexOfFrom 0 l x.

Section Run.
Variable endpoints : list Endpoint.

(** The head of the [while (queue.length > 0)] loop, up to the [await]:
    shift the next endpoint and mark it in progress, or leave the loop.
    Endpoints are objects, so the guard [if (!endpoint) continue] never
    fires. *)
Definition claimNext (w : nat) (p : Pool) : Worker * Pool :=
  match queue p with
  | [] => (Returned, p)
  | endpoint :: rest =>
      let currentIndex := indexOf endpoints endpoint in
      (Awaiting currentIndex endpoint,
       {| queue := rest;
          results := results p;
          inProgress := inProgress p ∪ {[currentIndex]};
          completed := completed p;
          workers := workers p;
          claims := claims p ++ [(w, endpoint)] |})
  end.

Definition setWorkers (ws : list Worker) (p : Pool) : Pool :=
  {| queue := queue p; results := results p; inProgress := inProgress p;
     completed := completed p; workers := ws; claims := claims p |}.

(** [processingPromises.push(processQueue())]: the new coroutine runs
    synchronously up to its first [await]. *)
Definition spawn (p : Pool) : Pool :=
  let '(wk, p') := claimNext (length (workers p)) p in
  setWorkers (workers p' ++ [wk]) p'.

Definition emptyPool : Pool :=
  {| queue := endpoints; results := []; inProgress := ∅; completed := 0%nat;
     workers := []; claims := [] |}.

(** The state when [await Promise.all(processingPromises)] is reached. *)
Definition start (concurrency : Z) : Pool :=
  Nat.iter (Z.to_nat (Z.min concurrency (Z.of_nat (length endpoints))))
    spawn emptyPool.

(** The bookkeeping of the [try] and [catch] arms after the [await]. *)
Definition finishTask (currentIndex : Z) (result : option EnhancedEndpoint)
    (p : Pool) : Pool :=
  {| queue := queue p;
     results := match result with
                | Some e => results p ++ [e]
                | None => results p
                end;
     inProgress := inProgress p ∖ {[currentIndex]};
     completed := S (completed p);
     workers := workers p;
     claims := claims p |}.

(** After the [await]: the bookkeeping, then the loop head again, up to the
    next [await] or to the end of the loop. *)
Definition resume (w : nat) (currentIndex : Z)
    (result : option EnhancedEndpoint) (p : Pool) : Pool :=
  let '(wk, p') := claimNext w (finishTask currentIndex result p) in
  setWorkers (<[w := wk]> (workers p')) p'.

(** The task awaited by worker [w] comes to the outcome [o]. *)
Definition settle (w : nat) (o : TaskOutcome) (p : Pool) : option Machine :=
  match workers p !! w with
  | Some (Awaiting currentIndex _) =>
      match o with
      | ProcessExit code => Some (Exited code p)
      | Resolved e => Some (Running (resume w currentIndex (Some e) p))
      | Rejected _ => Some (Running (resume w currentIndex None p))
      end
  | _ => None
  end.

(** Running a schedule of settlements; [None] when an event names a worker
    that is not waiting, or comes after the process has exited. *)
Fixpoint runSchedule (sched : list (nat * TaskOutcome)) (m : Machine)
    : option Machine :=
  match sched with
  | [] => Some m
  | (w, o) :: sched' =>
      match m with
      | Running p =>
          match settle w o p with
          | Some m' => runSchedule sched' m'
          | None => None
          end
      | Exited _ _ => None
      end
  end.

Definition isAwaiting (wk : Worker) : bool :=
  match wk with
  | Awaiting _ _ => true
  | Returned => false
  end.

(** Number of tasks in flight. *)
Definition inFlight (p : Pool) : nat :=
  length (filter (fun wk => isAwaiting wk = true) (workers p)).

Definition poolOf (m : Machine) : Pool :=
  match m with
  | Running p => p
  | Exited _ p => p
  end.

(** [Promise.all] has resolved: every coroutine has left its loop. *)
Definition allReturned (p : Pool) : Prop :=
  Forall (fun wk => wk = Returned) (workers p).

Definition settlesPromise (o : TaskOutcome) : Prop :=
  match o with
  | ProcessExit _ => False
  | _ => True
  end.

End Run.
End Enricher.

Arguments EnhancedEndpoint : clear implicits.
Arguments TaskOutcome : clear implicits.
Arguments Worker : clear implicits.
Arguments Pool : clear implicits.
Arguments Machine : clear implicits.

End Dispatcher.

(** ** Vocabulary of the budget statements *)

Module BudgetVocabulary.
Import Budget.

(** Whether the model has a budget that received service headers. *)
Definition budgetInitialized (budgets : Budgets) (modelName : string) : bool :=
  match budgets !! modelName with
  | Some b => initialized b
  | None => false
  end.

Inductive Constraint := Requests | InputTokens | OutputTokens.

Definition windowOf (c : Constraint) (b : RateLimitBudget) : Window :=
  match c with
  | Requests => requests b
  | InputTokens => inputTokens b
  | OutputTokens => outputTokens b
  end.

Definition needOf (estIn estOut : Z) (c : Constraint) : Z :=
  match c with
  | Requests => 1
  | InputTokens => estIn
  | OutputTokens => estOut
  end.

(** A constraint fails when, after roll-over, less remains than is needed. *)
Definition fails (now estIn estOut : Z) (b : RateLimitBudget) (c : Constraint) : Prop :=
  remaining (windowOf c (rollBudget now b)) < needOf estIn estOut c.

Definition waitOf (now : Z) (b : RateLimitBudget) (c : Constraint) : Z :=
  resetTime (windowOf c (rollBudget now b)) - now.

Definition debit (amount : Z) (w : Window) : Window :=
  {| limit := limit w; remaining := remaining w - amount;
     resetTime := resetTime w |}.

Definition reserve (estIn estOut : Z) (b : RateLimitBudget) : RateLimitBudget :=
  {| requests := debit 1 (requests b);
     inputTokens := debit estIn (inputTokens b);
     outputTokens := debit estOut (outputTokens b);
     initialized := initialized b |}.

Definition lowerAscii (c : Ascii.ascii) : Ascii.ascii :=
  let n := Ascii.N_of_ascii c in
  if ((65 <=? n) && (n <=? 90))%N then Ascii.ascii_of_N (n + 32) else c.

Fixpoint lowercase (s : string) : string :=
  match s with
  | EmptyString => EmptyString
  | String c rest => String (lowerAscii c) (lowercase rest)
  end.

Fixpoint contains (needle hay : string) : bool :=
  String.prefix needle hay ||
  match hay with
  | EmptyString => false
  | String _ rest => contains needle rest
  end.

Definition label (c : Constraint) : string :=
  match c with
  | Requests => "request limit"
  | InputTokens => "input token limit"
  | OutputTokens => "output token limit"
  end.

(** The reason names a constraint when it contains its label, whatever the
    capitalisation. *)
Definition names (reason : string) (c : Constraint) : bool :=
  contains (label c) (lowercase reason).

(** The headers carry no limit, remaining or reset field at all. *)
Definition carriesNoLimits (headers : RateLimitHeaders) : bool :=
  forallb (fun k => match headers !! k with None => true | Some _ => false end)
    ["anthropic-ratelimit-requests-limit";
     "anthropic-ratelimit-requests-remaining";
     "anthropic-ratelimit-requests-reset";
     "anthropic-ratelimit-tokens-limit";
     "anthropic-ratelimit-tokens-remaining";
     "anthropic-ratelimit-tokens-reset";
     "anthropic-ratelimit-input-tokens-limit";
     "anthropic-ratelimit-input-tokens-remaining";
     "anthropic-ratelimit-input-tokens-reset";
     "anthropic-ratelimit-output-tokens-limit";
     "anthropic-ratelimit-output-tokens-remaining";
     "anthropic-ratelimit-output-tokens-reset"]%string.

Definition markInitialized (b : RateLimitBudget) : RateLimitBudget :=
  {| requests := requests b; inputTokens := inputTokens b;
     outputTokens := outputTokens b; initialized := true |}.

(** A budget that never received headers and whose request window is
    exhausted until 9000. *)
Definition exhaustedBudgets : Budgets :=
  <["claude-3-5-haiku-latest" :=
      {| requests := {| limit := 50; remaining := 0; resetTime := 9000 |};
         inputTokens := {| limit := 30000; remaining := 30000; resetTime := 9000 |};
         outputTokens := {| limit := 10000; remaining := 10000; resetTime := 9000 |};
         initialized := false |}]> ∅.

End BudgetVocabulary.

(** ** Vocabulary of the request-loop statements *)

Module IntegrationVocabulary.
Import Budget Usage Integration.

(** The retry hint of a rejection, when the service supplied one. *)
Definition retryHint (headers : option RateLimitHeaders) : option string :=
  match headers with
  | Some h => if truthy (h !! "retry-after") then h !! "retry-after" else None
  | None => None
  end.

(** The request is in the response cache and the store can be read. *)
Definition cachedAs (key : string) (r : GenerateResult) (st : State) : Prop :=
  readFault (store st) = None /\ value <$> rows (store st) !! key = Some r.

(** The request has to be answered by the service: the cache is switched
    off, or it is readable and has no row for the key. *)
Definition servedLive (cacheEnabled : bool) (key : string) (st : State) : Prop :=
  cacheEnabled = false
  \/ (readFault (store st) = None /\ rows (store st) !! key = None).

(** A world whose clock stands at 4000, whose random draws are 0 and whose
    service rejects every call for a reason other than rate limiting. *)
Definition stillWorld : World :=
  {| nowAt := fun _ => 4000; randomAt := fun _ => 0%Q;
     replyAt := fun _ => OtherFailure "unavailable" |}.

(** A world whose service rejects every call as rate limited, without a
    retry hint. *)
Definition throttlingWorld : World :=
  {| nowAt := fun _ => 4000; randomAt := fun _ => (1 # 4)%Q;
     replyAt := fun _ => RateLimitReply None |}.

(** A world whose service answers every call. *)
Definition answeringWorld : World :=
  {| nowAt := fun _ => 4000; randomAt := fun _ => 0%Q;
     replyAt := fun _ =>
       Reply {| object := "live"; responseHeaders := None;
                resultUsage := None; cacheCreationInputTokens := None;
                cacheReadInputTokens := None |} |}.

(** Database files on which reading, respectively writing, throws. *)
Definition unreadableStore : Store :=
  {| rows := ∅; readFault := Some "disk I/O error"%string; writeFault := None |}.

Definition unwritableStore : Store :=
  {| rows := ∅; readFault := None; writeFault := Some "database is locked"%string |}.

Definition emptyStore : Store :=
  {| rows := ∅; readFault := None; writeFault := None |}.

Definition stateWith (budgets : Budgets) (s : Store) : State :=
  {| usage := emptyUsage; rateLimitBudgets := budgets; store := s;
     clockReads := 0; randomDraws := 0; liveCalls := 0; sleeps := [] |}.

Definition plainResult (payload : string) : GenerateResult :=
  {| object := payload; responseHeaders := None; resultUsage := None;
     cacheCreationInputTokens := None; cacheReadInputTokens := None |}.

(** A request of the light model with explicit estimates 100/100 (the
    input estimate becomes 120 after the 1.2 buffer). *)
Definition sampleRequest : Options :=
  {| useSmart := false; estimatedInputTokens := Some 100;
     estimatedOutputTokens := Some 100; messages := None; prompt := None;
     callParams := "k1" |}.

Definition budgetWith (requestsLeft : Z) : Budgets :=
  <["claude-3-5-haiku-latest" :=
      {| requests := {| limit := 50; remaining := requestsLeft; resetTime := 9000 |};
         inputTokens := {| limit := 30000; remaining := 30000; resetTime := 9000 |};
         outputTokens := {| limit := 10000; remaining := 10000; resetTime := 9000 |};
         initialized := true |}]> ∅.

Definition storeWith (key : string) (r : GenerateResult) : Store :=
  {| rows := <[key := {| value := r; timestamp := 1000 |}]> ∅;
     readFault := None; writeFault := None |}.

End IntegrationVocabulary.

(** ** Vocabulary of the dispatcher statements *)

Module DispatcherVocabulary.
Import Dispatcher.

Section Vocabulary.
Context {Endpoint : Type} {eqEndpoint : EqDecision Endpoint}.

Definition workerIndex (wk : Worker Endpoint) : option Z :=
  match wk with
  | Awaiting i _ => Some i
  | Returned => None
  end.

(** The indices of the tasks the suspended workers are waiting for. *)
Definition awaitedIndices (ws : list (Worker Endpoint)) : list Z :=
  omap workerIndex ws.

(** What holds of the pool at every instant of a dispatch of [endpoints]
    with [poolSize] coroutines. *)
Record PoolInvariant (endpoints : list Endpoint) (poolSize : nat)
    (p : Pool Endpoint) : Prop := {
  claimed_in_order : map snd (claims p) ++ queue p = endpoints;
  claimed_accounted : (inFlight p + completed p = length (claims p))%nat;
  pool_size : length (workers p) = poolSize;
  busy_while_queued : queue p <> [] -> inFlight p = length (workers p);
  progress_set : inProgress p ⊆ list_to_set (awaitedIndices (workers p));
  results_counted : (length (results p) <= completed p)%nat;
}.

Definition poolSizeFor (endpoints : list Endpoint) (concurrency : Z) : nat :=
  Z.to_nat (Z.min concurrency (Z.of_nat (length endpoints))).

End Vocabulary.

(** Three endpoints, named by their paths. *)
Definition sampleEndpoints : list string := ["/a"; "/b"; "/c"]%string.

Definition fiveEndpoints : list string :=
  ["/a"; "/b"; "/c"; "/d"; "/e"]%string.

Definition enhanced (path : string) : EnhancedEndpoint string :=
  {| source := path; enhancedInfo := "info";
     enhancedParameters := Fallback; enhancedResponses := Fallback |}.

(** Five settlements for a pool of two workers; the second task rejects. *)
Definition fiveSettlements : list (nat * TaskOutcome string) :=
  [(0%nat, Resolved (enhanced "/a"));
   (1%nat, Rejected "Invalid JSON response");
   (1%nat, Resolved (enhanced "/d"));
   (0%nat, Resolved (enhanced "/c"));
   (1%nat, Resolved (enhanced "/e"))]%string.

(** The description call of a task ends with exhausted retries. *)
Definition exhaustedRetries : Integration.Result string :=
  Integration.Err (Integration.RateLimitExceeded "claude-3-5-haiku-latest" 5).

End DispatcherVocabulary.

(** ** Further vocabulary of the budget statements *)

Module BudgetInvariants.
Import Budget BudgetVocabulary.

(** A window respects [0 <= remaining <= limit]. *)
Definition windowOk (w : Window) : Prop :=
  0 <= remaining w /\ remaining w <= limit w.

Definition budgetOk (b : RateLimitBudget) : Prop :=
  windowOk (requests b) /\ windowOk (inputTokens b) /\ windowOk (outputTokens b).

(** The headers carry a limit and a remaining value for each of the three
    categories. *)
Definition completeHeaders (headers : RateLimitHeaders) : bool :=
  forallb (fun k => truthy (headers !! k))
    ["anthropic-ratelimit-requests-limit";
     "anthropic-ratelimit-requests-remaining";
     "anthropic-ratelimit-input-tokens-limit";
     "anthropic-ratelimit-input-tokens-remaining";
     "anthropic-ratelimit-output-tokens-limit";
     "anthropic-ratelimit-output-tokens-remaining"]%string.

(** Headers as the service sends them. *)
Definition fullHeaders : RateLimitHeaders :=
  <["anthropic-ratelimit-requests-limit" := "50"]>
  (<["anthropic-ratelimit-requests-remaining" := "49"]>
  (<["anthropic-ratelimit-requests-reset" := "70000"]>
  (<["anthropic-ratelimit-input-tokens-limit" := "30000"]>
  (<["anthropic-ratelimit-input-tokens-remaining" := "29000"]>
  (<["anthropic-ratelimit-output-tokens-limit" := "10000"]>
  (<["anthropic-ratelimit-output-tokens-remaining" := "9500"]> ∅)))))).

End BudgetInvariants.

(** ** Further pieces of the cache, the CLI entry point and the ledger *)

Module IntegrationMore.
Import Budget Usage Integration.

(** [SQLiteCacheManager.clear]: DELETE FROM llm_cache. *)
Definition cacheClear : M unit :=
  fun st =>
    match writeFault (store st) with
    | Some m => (Err (CacheFailure m), st)
    | None =>
        setStore (fun s =>
          {| rows := ∅; readFault := readFault s; writeFault := writeFault s |}) st
    end.

(** [opts.concurrency] is what [parseInt] made of the command-line
    argument: an integer or [NaN], which [None] stands for. [Math.min] and
    [Math.max] give [NaN] as soon as an argument is [NaN]. *)
Definition mathMin (a b : option Z) : option Z :=
  match a, b with
  | Some x, Some y => Some (Z.min x y)
  | _, _ => None
  end.

Definition mathMax (a b : option Z) : option Z :=
  match a, b with
  | Some x, Some y => Some (Z.max x y)
  | _, _ => None
  end.

(** The retry ceiling the CLI entry point passes to the constructor:
    [Math.max(5, Math.min(10, opts.concurrency * 2))]. *)
Definition cliMaxRateLimitRetries (concurrency : option Z) : option Z :=
  mathMax (Some 5) (mathMin (Some 10) ((fun c => c * 2) <$> concurrency)).

(** The model has an entry in the pricing table. *)
Definition priced (modelName : string) : bool :=
  match PRICING !! modelName with
  | Some _ => true
  | None => false
  end.

(** The operation records a call of a priced model with the given
    [fromCache] flag. *)
Definition recordsCall (fromCache : bool) (op : LedgerOp) : bool :=
  match op with
  | Record_ m _ _ fc _ _ => priced m && Bool.eqb fc fromCache
  | Retry | Delay => false
  end.

(** Number of recorded calls of priced models, served live or from cache. *)
Definition countRecords (fromCache : bool) (ops : list LedgerOp) : Z :=
  Z.of_nat (length (filter (fun op => recordsCall fromCache op = true) ops)).

(** A cached result that carries token usage. *)
Definition meteredResult (payload : string) (promptTokens completionTokens : Z)
    : GenerateResult :=
  {| object := payload; responseHeaders := None;
     resultUsage := Some {| usagePromptTokens := promptTokens;
                            usageCompletionTokens := completionTokens |};
     cacheCreationInputTokens := None; cacheReadInputTokens := None |}.

(** A world whose service is rate limited twice and then answers. *)
Definition recoveringWorld : World :=
  {| nowAt := fun _ => 4000; randomAt := fun _ => (1 # 2)%Q;
     replyAt := fun i =>
       if (i <? 2)%nat then RateLimitReply None
       else Reply (meteredResult "late" 10 5) |}.

End IntegrationMore.

(** ** Further vocabulary of the dispatcher statements *)

Module DispatcherOrder.
Import Dispatcher.

(** The enhanced endpoint a settlement contributes to [results], if any. *)
Definition resolvedOf {Endpoint : Type} (ev : nat * TaskOutcome Endpoint)
    : option (EnhancedEndpoint Endpoint) :=
  match snd ev with
  | Resolved e => Some e
  | Rejected _ | ProcessExit _ => None
  end.

End DispatcherOrder.

(** ** Vocabulary of the progress statements *)

Module DispatcherProgress.
Import Dispatcher DispatcherVocabulary.

(** The in-progress set mirrors the suspended workers exactly. *)
Record ExactProgress {Endpoint : Type} (p : Pool Endpoint) : Prop := {
  awaited_distinct : NoDup (awaitedIndices (workers p));
  awaited_claimed :
    forall i, i ∈ awaitedIndices (workers p) ->
              i < Z.of_nat (length (claims p));
  progress_exact : inProgress p = list_to_set (awaitedIndices (workers p));
}.

End DispatcherProgress.

(** ** Progress spinner of the dispatcher (semantic-enricher.ts) *)

Module Spinner.

(** The [for] loop over the sorted indices: [rangeStart] and [rangeEnd]
    are the range being extended, the result the ranges pushed, the last
    one included. *)
Fixpoint scanRanges (rangeStart rangeEnd : Z) (rest : list Z) : list (Z * Z) :=
  match rest with
  | [] => [(rangeStart, rangeEnd)]
  | x :: rest' =>
      if x =? rangeEnd + 1
      then scanRanges rangeStart x rest'
      else (rangeStart, rangeEnd) :: scanRanges x x rest'
  end.

Definition indexRanges (inProgressArray : list Z) : list (Z * Z) :=
  match inProgressArray with
  | [] => []
  | first :: rest => scanRanges first first rest
  end.

(** The text pushed for one range; endpoints are shown 1-based. *)
Definition rangeText (r : Z * Z) : string :=
  if fst r =? snd r
  then pretty (fst r + 1)
  else pretty (fst r + 1) +:+ "-" +:+ pretty (snd r + 1).

(** [Array.from(inProgress).sort((a, b) => a - b)]. *)
Definition sortedIndices (inProgress : gset Z) : list Z :=
  merge_sort Z.le (elements inProgress).

Definition progressRanges (inProgress : gset Z) : list (Z * Z) :=
  indexRanges (sortedIndices inProgress).

(** [updateProgressSpinner]: the spinner text, or [None] when the function
    returns without touching the spinner (single concurrency, or verbose
    logging). *)
Definition updateProgressSpinner (concurrency : Z) (verbose : bool)
    (inProgress : gset Z) (completed totalEndpoints : nat) : option string :=
  if concurrency =? 1 then None
  else if verbose then None
  else
    let ranges := map rangeText (progressRanges inProgress) in
    let inProgressText :=
      match ranges with
      | [] => ""
      | _ => "Processing endpoints " +:+ String.concat ", " ranges
      end in
    Some ("Enhancing endpoints: " +:+ pretty completed +:+ "/"
          +:+ pretty totalEndpoints +:+ " complete"
          +:+ (if String.eqb inProgressText "" then ""
               else " (" +:+ inProgressText +:+ ")")).

(** Two ranges neither overlap nor touch. *)
Definition apart (r1 r2 : Z * Z) : Prop := snd r1 + 1 < fst r2.

End Spinner.

(** ** Parameter and response enrichment (semantic-enricher.ts) *)

Module Enrichment.

Record NormalizedParameter := {
  paramName : string;
  paramIn : string;
  paramRequired : bool;
  paramDescription : string;
}.

Inductive Importance := Critical | Important | Optional_.

(** One element of the [result] array of [ParametersArraySchema]. *)
Record ParameterEnhancement := {
  peName : string;
  peDescription : string;
  peImportance : Importance;
  peCommonValues : option (list string);
}.

(** [{ ...param, enhancedDescription, importance, commonValues }]. *)
Record EnhancedParameter := {
  original : NormalizedParameter;
  epDescription : string;
  epImportance : Importance;
  epCommonValues : option (list string);
}.

(** The fallback entry, used when the parameter was not enhanced and when
    the model call failed. *)
Definition fallbackParameter (param : NormalizedParameter) : EnhancedParameter :=
  {| original := param;
     epDescription := paramDescription param;
     epImportance := if paramRequired param then Critical else Optional_;
     epCommonValues := None |}.

(** The callback of [endpoint.parameters.map] after a successful call. *)
Definition mergeParameter (enhancedParams : list ParameterEnhancement)
    (param : NormalizedParameter) : EnhancedParameter :=
  match find (fun p => String.eqb (peName p) (paramName param)) enhancedParams with
  | Some enhanced =>
      {| original := param;
         epDescription := peDescription enhanced;
         epImportance := peImportance enhanced;
         epCommonValues := peCommonValues enhanced |}
  | None => fallbackParameter param
  end.

(** [enhanceParameters(endpoint)], given the outcome of its model call
    (which is not made when the endpoint has no parameters). *)
Definition enhanceParameters (parameters : list NormalizedParameter)
    (call : Integration.Result (list ParameterEnhancement))
    : list EnhancedParameter :=
  match parameters with
  | [] => []
  | _ =>
      match call with
      | Integration.Ok enhancedParams =>
          map (mergeParameter enhancedParams) parameters
      | Integration.Err _ => map fallbackParameter parameters
      end
  end.

(** One element of the [result] array of [ResponsesArraySchema]. *)
Record ResponseEnhancement := {
  reStatusCode : string;
  reDescription : string;
  reResolutionSteps : option (list string);
}.

Record EnhancedResponse := {
  erDescription : string;
  erResolutionSteps : option (list string);
}.

Definition isErrorStatus (statusCode : string) : bool :=
  String.prefix "4" statusCode || String.prefix "5" statusCode.

Definition fallbackResponse (statusCode description : string) : EnhancedResponse :=
  {| erDescription := description;
     erResolutionSteps :=
       if isErrorStatus statusCode
       then Some ["Verify your request parameters"; "Check authentication"]%string
       else None |}.

Definition recordResponse (acc : gmap string EnhancedResponse)
    (resp : ResponseEnhancement) : gmap string EnhancedResponse :=
  <[reStatusCode resp :=
      {| erDescription := reDescription resp;
         erResolutionSteps := reResolutionSteps resp |}]> acc.

(** [enhanceResponses(endpoint, purpose)], given the descriptions of the
    endpoint's responses by status code and the outcome of the model call
    (which is not made when the endpoint has no responses). *)
Definition enhanceResponses (responses : gmap string string)
    (call : Integration.Result (list ResponseEnhancement))
    : gmap string EnhancedResponse :=
  if decide (responses = ∅) then ∅
  else
    match call with
    | Integration.Ok enhancedResponsesArray =>
        fold_left recordResponse enhancedResponsesArray ∅
    | Integration.Err _ =>
        map_imap (fun statusCode description =>
                    Some (fallbackResponse statusCode description)) responses
    end.

(** The enhancement names one of the parameters. *)
Definition namesParameter (parameters : list NormalizedParameter)
    (p : ParameterEnhancement) : bool :=
  existsb (fun param => String.eqb (peName p) (paramName param)) parameters.

Definition sampleParameters : list NormalizedParameter :=
  [{| paramName := "id"; paramIn := "path"; paramRequired := true;
      paramDescription := "id parameter" |};
   {| paramName := "limit"; paramIn := "query"; paramRequired := false;
      paramDescription := "limit parameter" |}]%string.

End Enrichment.

(** * Properties *)

(** ** Budget tracker and throttle *)

Module BudgetFacts.
Import Budget BudgetVocabulary.

Lemma rollWindow_future now w : now < resetTime (rollWindow now w).
Proof.
  unfold rollWindow. destruct (Z.leb_spec (resetTime w) now); simpl; lia.
Qed.

Lemma waitOf_pos now b c : 0 < waitOf now b c.
Proof.
  unfold waitOf. destruct c; simpl;
    match goal with |- context [rollWindow now ?w] =>
      pose proof (rollWindow_future now w) end; lia.
Qed.

Lemma check_uninitialized now modelName estIn estOut (budgets : Budgets) :
  budgetInitialized budgets modelName = false ->
  checkRateLimitBudget now modelName estIn estOut budgets
  = (noRateLimitData, budgets).
Proof.
  unfold budgetInitialized, checkRateLimitBudget.
  destruct (budgets !! modelName) as [b|]; [|done].
  intros ->. done.
Qed.

Lemma check_initialized now modelName estIn estOut (budgets : Budgets) b :
  budgets !! modelName = Some b ->
  initialized b = true ->
  checkRateLimitBudget now modelName estIn estOut budgets
  = (fst (checkInitialized now estIn estOut b),
     <[modelName := snd (checkInitialized now estIn estOut b)]> budgets).
Proof.
  intros Hb Hi. unfold checkRateLimitBudget. rewrite Hb, Hi. simpl.
  by destruct (checkInitialized now estIn estOut b).
Qed.

(** C9: an uninitialized budget (or no budget at all) never makes
    [checkRateLimitBudget] report a wait, whatever the estimates; the
    budgets are left as they were. *)
Theorem uninitialized_budget_never_waits now modelName estIn estOut
    (budgets : Budgets) :
  budgetInitialized budgets modelName = false ->
  shouldWait (fst (checkRateLimitBudget now modelName estIn estOut budgets)) = false
  /\ waitTimeMs (fst (checkRateLimitBudget now modelName estIn estOut budgets)) = 0
  /\ snd (checkRateLimitBudget now modelName estIn estOut budgets) = budgets.
Proof.
  intros H. by rewrite (check_uninitialized _ _ _ _ _ H).
Qed.

Lemma uninitialized_budget_never_waits_witness :
  budgetInitialized (Integration.initialBudgets 1000 1001)
    "claude-3-5-haiku-latest" = false
  /\ shouldWait (fst (checkRateLimitBudget 2000 "claude-3-5-haiku-latest"
                       1440 400 (Integration.initialBudgets 1000 1001))) = false.
Proof.
  split; [reflexivity|].
  apply (uninitialized_budget_never_waits 2000 "claude-3-5-haiku-latest"
           1440 400 (Integration.initialBudgets 1000 1001)).
  reflexivity.
Defined.

Lemma updateWindow_absent {rt : JsRuntime} now (headers : RateLimitHeaders)
    kLimit kRemaining kReset dflt old :
  headers !! kLimit = None ->
  updateWindow now headers kLimit kRemaining kReset dflt old = old.
Proof. unfold updateWindow. by intros ->. Qed.

Lemma update_without_limits {rt : JsRuntime} createdAt now modelName
    (headers : RateLimitHeaders) (budgets : Budgets) :
  carriesNoLimits headers = true ->
  updateRateLimitBudgets createdAt now modelName (Some headers) budgets
  = <[modelName :=
        markInitialized
          (default (createUninitializedBudget createdAt) (budgets !! modelName))]>
      budgets.
Proof.
  intros H. unfold carriesNoLimits in H. simpl in H.
  repeat (apply andb_prop in H; destruct H as [? H]).
  repeat match goal with
         | H : match ?x with Some _ => false | None => true end = true |- _ =>
             destruct x eqn:?; [discriminate H|clear H]
         end.
  unfold updateRateLimitBudgets.
  rewrite !updateWindow_absent by assumption.
  by destruct (budgets !! modelName).
Qed.

(** C10: after [updateRateLimitBudgets] with any non-null headers object the
    model's budget is marked initialized. When the headers carry no limit,
    remaining or reset field, the three windows keep their previous values
    (those of a fresh, effectively unlimited budget when the model had no
    entry), and a following [checkRateLimitBudget] no longer takes the
    "no rate limit data" exit: it runs the initialized check on exactly
    those values. *)
Theorem update_marks_initialized {rt : JsRuntime} createdAt now modelName
    (headers : RateLimitHeaders) (budgets : Budgets) :
  let budgets' :=
    updateRateLimitBudgets createdAt now modelName (Some headers) budgets in
  let previous :=
    default (createUninitializedBudget createdAt) (budgets !! modelName) in
  budgetInitialized budgets' modelName = true
  /\ (carriesNoLimits headers = true ->
      budgets' !! modelName = Some (markInitialized previous)
      /\ forall now' estIn estOut,
           checkRateLimitBudget now' modelName estIn estOut budgets'
           = (fst (checkInitialized now' estIn estOut (markInitialized previous)),
              <[modelName :=
                  snd (checkInitialized now' estIn estOut
                         (markInitialized previous))]> budgets')).
Proof.
  intros budgets' previous. split.
  - unfold budgetInitialized, budgets', updateRateLimitBudgets.
    by rewrite lookup_insert_eq.
  - intros Hno.
    assert (Hb : budgets' !! modelName = Some (markInitialized previous)).
    { unfold budgets'. rewrite update_without_limits by done.
      by rewrite lookup_insert_eq. }
    split; [done|]. intros now' estIn estOut.
    by apply check_initialized.
Qed.

Lemma update_marks_initialized_witness :
  carriesNoLimits (<["content-type" := "application/json"]> ∅) = true
  /\ shouldWait
       (fst (checkRateLimitBudget 4000 "claude-3-5-haiku-latest" 100 100
               exhaustedBudgets)) = false
  /\ shouldWait
       (fst (checkRateLimitBudget 4000 "claude-3-5-haiku-latest" 100 100
               (updateRateLimitBudgets (rt := decimalRuntime) 3000 3000
                  "claude-3-5-haiku-latest"
                  (Some (<["content-type" := "application/json"]> ∅))
                  exhaustedBudgets))) = true.
Proof.
  split; [reflexivity|]. split; [reflexivity|].
  destruct (update_marks_initialized (rt := decimalRuntime) 3000 3000
              "claude-3-5-haiku-latest"
              (<["content-type" := "application/json"]> ∅) exhaustedBudgets)
    as [_ H].
  destruct (H eq_refl) as [_ Hcheck].
  rewrite Hcheck. reflexivity.
Defined.

Lemma spend_debit amount w :
  amount <= remaining w -> spend amount w = debit amount w.
Proof. intros H. unfold spend, debit. f_equal. lia. Qed.

Ltac pick_tightest :=
  first
    [ solve [exists Requests; simpl;
             repeat split; try lia; intros [] ?; simpl in *; lia]
    | solve [exists InputTokens; simpl;
             repeat split; try lia; intros [] ?; simpl in *; lia]
    | solve [exists OutputTokens; simpl;
             repeat split; try lia; intros [] ?; simpl in *; lia] ].

Lemma checkInitialized_waits now estIn estOut b :
  (exists c, fails now estIn estOut b c) ->
  let r := fst (checkInitialized now estIn estOut b) in
  shouldWait r = true
  /\ (exists c, fails now estIn estOut b c
                /\ waitTimeMs r = Z.min (waitOf now b c) 60000
                /\ forall c', fails now estIn estOut b c' ->
                              waitOf now b c' <= waitOf now b c)
  /\ (forall c, names (reason r) c = true <-> fails now estIn estOut b c)
  /\ snd (checkInitialized now estIn estOut b) = rollBudget now b.
Proof.
  pose proof (waitOf_pos now b Requests) as P1.
  pose proof (waitOf_pos now b InputTokens) as P2.
  pose proof (waitOf_pos now b OutputTokens) as P3.
  unfold fails, waitOf, checkInitialized in *.
  generalize dependent (rollBudget now b).
  intros [[l1 r1 t1] [l2 r2 t2] [l3 r3 t3] ini]. simpl.
  intros P1 P2 P3 Hex.
  assert (Hany : r1 < 1 \/ r2 < estIn \/ r3 < estOut).
  { destruct Hex as [[] H]; simpl in H; auto. }
  clear Hex.
  destruct (Z.le_gt_cases t1 t2) as [O1|O1];
  destruct (Z.le_gt_cases t2 t3) as [O2|O2];
  destruct (Z.le_gt_cases t1 t3) as [O3|O3];
  destruct (Z.ltb_spec r1 1) as [F1|F1];
  destruct (Z.ltb_spec r2 estIn) as [F2|F2];
  destruct (Z.ltb_spec r3 estOut) as [F3|F3];
  try (exfalso; lia);
  cbn [nonEmpty String.eqb negb Ascii.eqb Bool.eqb String.append fst snd
       shouldWait waitTimeMs reason];
  (split; [apply Z.ltb_lt; lia|]);
  (split; [pick_tightest|]);
  (split;
   [intros []; simpl;
    (split; [intros Hn; first [lia | vm_compute in Hn; discriminate Hn]
            | intros Hf; first [reflexivity | exfalso; lia]])
   |]);
  match goal with
  | |- context [?x =? 0] => destruct (Z.eqb_spec x 0) as [E|E]; [exfalso; lia|]
  end; reflexivity.
Qed.

Lemma checkInitialized_proceeds now estIn estOut b :
  (forall c, ~ fails now estIn estOut b c) ->
  fst (checkInitialized now estIn estOut b)
  = {| shouldWait := false; waitTimeMs := 0; reason := "" |}
  /\ snd (checkInitialized now estIn estOut b)
     = reserve estIn estOut (rollBudget now b).
Proof.
  intros Hno.
  pose proof (Hno Requests) as N1.
  pose proof (Hno InputTokens) as N2.
  pose proof (Hno OutputTokens) as N3.
  clear Hno. unfold fails, checkInitialized, reserve in *.
  generalize dependent (rollBudget now b).
  intros [w1 w2 w3 ini]. simpl. intros N1 N2 N3.
  destruct (Z.ltb_spec (remaining w1) 1); [lia|].
  destruct (Z.ltb_spec (remaining w2) estIn); [lia|].
  destruct (Z.ltb_spec (remaining w3) estOut); [lia|].
  simpl. by rewrite !spend_debit by lia.
Qed.

(** C5: for an initialized budget, [checkRateLimitBudget] first rolls over
    every sub-window whose reset time has passed: such a window gets
    [remaining = limit] and a reset time of [now + 60000], a window whose
    reset time lies ahead is left as it is, and no limit changes. It then
    evaluates the three constraints on the rolled windows. If one fails, it
    reports a wait whose length is the largest [resetTime - now] among the
    failing constraints, capped at 60000 ms, with a reason that names
    exactly the failing constraints (so in particular the tightest one),
    and reserves nothing. If none fails, it reports no wait and lowers the
    three remaining counters by 1, the input estimate and the output
    estimate. With no request left and the request window resetting in
    5000 ms, the answer for estimates 100/100 is a 5000 ms wait for
    "Request limit reached". *)
Theorem checkBudget_initialized now modelName estIn estOut
    (budgets : Budgets) b :
  budgets !! modelName = Some b ->
  initialized b = true ->
  let r := fst (checkRateLimitBudget now modelName estIn estOut budgets) in
  let budgets' := snd (checkRateLimitBudget now modelName estIn estOut budgets) in
  (forall c,
     let w := windowOf c b in
     let w' := windowOf c (rollBudget now b) in
     limit w' = limit w
     /\ (resetTime w <= now ->
         remaining w' = limit w /\ resetTime w' = now + 60000)
     /\ (now < resetTime w ->
         remaining w' = remaining w /\ resetTime w' = resetTime w))
  /\ ((exists c, fails now estIn estOut b c) ->
     shouldWait r = true
     /\ (exists c, fails now estIn estOut b c
                   /\ waitTimeMs r = Z.min (waitOf now b c) 60000
                   /\ forall c', fails now estIn estOut b c' ->
                                 waitOf now b c' <= waitOf now b c)
     /\ (forall c, names (reason r) c = true <-> fails now estIn estOut b c)
     /\ budgets' = <[modelName := rollBudget now b]> budgets)
  /\ ((forall c, ~ fails now estIn estOut b c) ->
      shouldWait r = false
      /\ waitTimeMs r = 0
      /\ budgets' = <[modelName := reserve estIn estOut (rollBudget now b)]> budgets)
  /\ (requests b = {| limit := 50; remaining := 0; resetTime := now + 5000 |} ->
      estIn = 100 -> estOut = 100 ->
      ~ fails now estIn estOut b InputTokens ->
      ~ fails now estIn estOut b OutputTokens ->
      r = {| shouldWait := true; waitTimeMs := 5000;
             reason := "Request limit reached" |}).
Proof.
  intros Hb Hi r budgets'. subst r budgets'.
  rewrite (check_initialized _ _ _ _ _ _ Hb Hi). cbn [fst snd].
  split; [|split; [|split]].
  - intros c. cbv zeta.
    destruct b as [w1 w2 w3 ini], c; cbn [windowOf rollBudget requests
      inputTokens outputTokens]; unfold rollWindow;
      destruct (Z.leb_spec (resetTime w1) now);
      destruct (Z.leb_spec (resetTime w2) now);
      destruct (Z.leb_spec (resetTime w3) now);
      cbn [limit remaining resetTime]; repeat split; intros; lia.
  - intros Hex.
    destruct (checkInitialized_waits now estIn estOut b Hex)
      as (H1 & H2 & H3 & H4).
    by rewrite H4.
  - intros Hno.
    destruct (checkInitialized_proceeds now estIn estOut b Hno) as [H1 H2].
    by rewrite H1, H2.
  - intros Hreq -> -> N2 N3.
    unfold fails, checkInitialized, rollBudget in *.
    destruct b as [w1 w2 w3 ini].
    cbn [requests inputTokens outputTokens windowOf needOf initialized] in *.
    subst w1.
    assert (R : rollWindow now {| limit := 50; remaining := 0;
                                  resetTime := now + 5000 |}
                = {| limit := 50; remaining := 0; resetTime := now + 5000 |}).
    { unfold rollWindow. cbn [resetTime].
      destruct (Z.leb_spec (now + 5000) now); [lia|done]. }
    rewrite R. clear R.
    generalize dependent (rollWindow now w2).
    generalize dependent (rollWindow now w3).
    intros v3 N3 v2 N2. cbn [remaining resetTime].
    destruct (Z.ltb_spec (remaining v2) 100); [lia|].
    destruct (Z.ltb_spec (remaining v3) 100); [lia|].
    cbn [fst]. change (0 <? 1) with true. cbn iota.
    replace (0 `max` (now + 5000 - now)) with 5000 by lia.
    reflexivity.
Qed.

Lemma checkBudget_initialized_witness :
  fst (checkRateLimitBudget 4000 "claude-3-5-haiku-latest" 100 100
         (<["claude-3-5-haiku-latest" :=
              markInitialized
                {| requests := {| limit := 50; remaining := 0; resetTime := 4000 + 5000 |};
                   inputTokens := {| limit := 30000; remaining := 30000; resetTime := 9000 |};
                   outputTokens := {| limit := 10000; remaining := 10000; resetTime := 9000 |};
                   initialized := false |}]> ∅))
  = {| shouldWait := true; waitTimeMs := 5000; reason := "Request limit reached" |}.
Proof.
  eapply (checkBudget_initialized 4000 "claude-3-5-haiku-latest" 100 100).
  - apply lookup_insert_eq.
  - reflexivity.
  - reflexivity.
  - reflexivity.
  - reflexivity.
  - unfold fails. simpl. lia.
  - unfold fails. simpl. lia.
Defined.

End BudgetFacts.

(** ** Usage accountant *)

Module UsageFacts.
Import Usage.

Lemma pricing_nonneg modelName pricing :
  PRICING !! modelName = Some pricing ->
  0 <= input pricing /\ 0 <= output pricing
  /\ 0 <= cacheWrite pricing /\ 0 <= cacheRead pricing.
Proof.
  unfold PRICING. rewrite !lookup_insert.
  repeat case_decide; intros Hp; simplify_eq; simpl; lia.
Qed.

Lemma optional_cost_nonneg (o : option Z) rate :
  optNonneg o -> 0 <= rate ->
  0 <= (if numTruthy o then default 0 o * rate else 0).
Proof.
  intros Ho Hr. destruct o as [n|]; simpl in *; [|lia].
  destruct (n =? 0); simpl; nia.
Qed.

Lemma optional_add_monotone (o : option Z) total :
  optNonneg o -> total <= (if numTruthy o then total + default 0 o else total).
Proof.
  intros Ho. destruct o as [n|]; simpl in *; [|lia].
  destruct (n =? 0); simpl; lia.
Qed.

Lemma additiveLe_refl u : additiveLe u u.
Proof. unfold additiveLe. lia. Qed.

Lemma additiveLe_trans u1 u2 u3 :
  additiveLe u1 u2 -> additiveLe u2 u3 -> additiveLe u1 u3.
Proof. unfold additiveLe. lia. Qed.

Lemma applyOp_additive u op : wellFormedOp op -> additiveLe u (applyOp u op).
Proof.
  destruct op as [m p c fc cc cr| |]; simpl.
  - intros (Hp & Hc & Hcc & Hcr). unfold updateUsage.
    destruct (PRICING !! m) as [pr|] eqn:Hpr; [|apply additiveLe_refl].
    destruct (pricing_nonneg _ _ Hpr) as (P1 & P2 & P3 & P4).
    pose proof (optional_cost_nonneg cc (cacheWrite pr) Hcc P3).
    pose proof (optional_cost_nonneg cr (cacheRead pr) Hcr P4).
    pose proof (optional_add_monotone cc (cacheCreationTokens u) Hcc).
    pose proof (optional_add_monotone cr (cacheReadTokens u) Hcr).
    unfold additiveLe. simpl. destruct fc; repeat split; nia.
  - intros _. unfold additiveLe. simpl. lia.
  - intros _. unfold additiveLe. simpl. lia.
Qed.

(** Every additively kept counter is non-decreasing along any sequence of
    ledger operations with non-negative token amounts. *)
Lemma additive_counters_monotone ops u :
  Forall wellFormedOp ops -> additiveLe u (applyOps ops u).
Proof.
  unfold applyOps. intros H. revert u.
  induction H as [|op ops Hop _ IH]; intros u; simpl.
  - apply additiveLe_refl.
  - eapply additiveLe_trans; [apply applyOp_additive, Hop|apply IH].
Qed.

Lemma applyOp_repriced m u op :
  onModel m op -> repricedAt m u -> repricedAt m (applyOp u op).
Proof.
  unfold repricedAt. destruct op as [m' p c fc cc cr| |]; simpl; [|done|done].
  intros ->. unfold updateUsage.
  by destruct (PRICING !! m) as [pr|].
Qed.

Lemma applyOps_repriced m ops u :
  Forall (onModel m) ops -> repricedAt m u -> repricedAt m (applyOps ops u).
Proof.
  unfold applyOps. intros H. revert u.
  induction H as [|op ops Hop _ IH]; intros u Hu; simpl; [done|].
  by apply IH, applyOp_repriced.
Qed.

(** While a single model is in use, the no-cache cost is non-decreasing
    as well. *)
Lemma no_cache_cost_monotone_single_model m ops1 ops2 :
  Forall wellFormedOp (ops1 ++ ops2) ->
  Forall (onModel m) (ops1 ++ ops2) ->
  costWithoutCaching (applyOps ops1 emptyUsage)
  <= costWithoutCaching (applyOps (ops1 ++ ops2) emptyUsage).
Proof.
  intros Hwf Hm.
  apply Forall_app in Hwf as [Hwf1 Hwf2].
  apply Forall_app in Hm as [Hm1 Hm2].
  assert (H0 : repricedAt m emptyUsage).
  { unfold repricedAt. by destruct (PRICING !! m). }
  pose proof (applyOps_repriced m ops1 _ Hm1 H0) as H1.
  unfold applyOps in *. rewrite fold_left_app.
  pose proof (applyOps_repriced m ops2 _ Hm2 H1) as H2.
  pose proof (additive_counters_monotone ops2 (fold_left applyOp ops1 emptyUsage)
                Hwf2) as Hle.
  unfold applyOps, repricedAt, additiveLe in *.
  destruct (PRICING !! m) as [pr|] eqn:Hpr; [|lia].
  destruct (pricing_nonneg _ _ Hpr) as (P1 & P2 & _).
  nia.
Qed.

(** C4, on the code: the hypothetical no-cache cost is not kept by
    addition. [updateUsage] re-prices the running token totals of all
    models at the rates of the model of the current call, so a call to the
    light model after a call to the smart model lowers it, although both
    operations carry non-negative amounts. *)
Theorem no_cache_cost_decreases :
  let smartCall :=
    Record_ "claude-3-7-sonnet-latest" 1000 200 false (Some 0) (Some 0) in
  let lightCall :=
    Record_ "claude-3-5-haiku-latest" 100 50 false (Some 0) (Some 0) in
  wellFormedOp smartCall /\ wellFormedOp lightCall
  /\ costWithoutCaching (applyOps [smartCall] emptyUsage) = 600000
  /\ costWithoutCaching (applyOps [smartCall; lightCall] emptyUsage) = 188000
  /\ ~ costWithoutCaching (applyOps [smartCall] emptyUsage)
       <= costWithoutCaching (applyOps [smartCall; lightCall] emptyUsage).
Proof.
  cbv zeta.
  split; [simpl; lia|]. split; [simpl; lia|].
  split; [reflexivity|]. split; [reflexivity|].
  vm_compute. intros H. apply H. reflexivity.
Qed.

End UsageFacts.

(** ** Retry controller, response cache and request loop *)

Module IntegrationFacts.
Import Budget Usage Integration IntegrationVocabulary.

Section Facts.
Context {rt : JsRuntime} (w : World).

Lemma handleRateLimit_exhausted max headers attempt model st :
  max <= attempt ->
  handleRateLimit w max headers attempt model st
  = (Err (RateLimitExceeded model attempt), snd (setUsage countRetry st)).
Proof.
  intros H. unfold handleRateLimit, bind. simpl.
  destruct (Z.leb_spec max attempt); [done|lia].
Qed.

Lemma backoff_scaled attempt random :
  ((backoffSeconds attempt random + (1 # 2)) * 1000
   == Qmin 60000 (inject_Z (2 ^ attempt * 1000) + random * 1000) + 500)%Q.
Proof.
  unfold backoffSeconds.
  set (x := (inject_Z (2 ^ attempt * 1000) + random * 1000)%Q).
  destruct (Qlt_le_dec 60000 x) as [Hx|Hx].
  - rewrite (Q.min_l 60 (x / 1000)), (Q.min_l 60000 x).
    + lra.
    + lra.
    + apply Qle_shift_div_l; lra.
  - rewrite (Q.min_r 60 (x / 1000)), (Q.min_r 60000 x).
    + field.
    + lra.
    + apply Qle_shift_div_r; lra.
Qed.

Lemma handleRateLimit_retry max headers attempt model st :
  attempt < max ->
  exists d st',
    handleRateLimit w max headers attempt model st = (Ok d, st')
    /\ liveCalls st' = liveCalls st
    /\ store st' = store st
    /\ rateLimitRetries (usage st') = rateLimitRetries (usage st) + 1
    /\ match retryHint headers with
       | Some hint => (d == inject_Z (parseInt hint) * 1000 + 500)%Q
       | None =>
           (d == Qmin 60000 (inject_Z (2 ^ attempt * 1000)
                             + randomAt w (randomDraws st) * 1000) + 500)%Q
       end.
Proof.
  intros H. unfold handleRateLimit, bind. simpl.
  destruct (Z.leb_spec max attempt); [lia|].
  destruct headers as [h|]; simpl.
  - destruct (truthy (h !! "retry-after")) eqn:Ht; simpl.
    + unfold truthy in Ht.
      destruct (h !! "retry-after") as [hint|] eqn:Hh; [|done].
      assert (orElse (Some hint) "0" = hint) as ->.
      { unfold orElse. by destruct (String.eqb hint ""). }
      destruct (rateLimitBudgets st !! model); simpl;
        (eexists; eexists; split; [reflexivity|]; simpl;
         repeat split; try reflexivity; field).
    + eexists; eexists; split; [reflexivity|]; simpl.
      repeat split; try reflexivity. apply backoff_scaled.
  - eexists; eexists; split; [reflexivity|]; simpl.
    repeat split; try reflexivity. apply backoff_scaled.
Qed.

(** C7, as the code has it: below the retry ceiling the delay is the
    service's retry hint plus a margin of 500 ms when a hint is supplied;
    otherwise it is [2^attempt] seconds plus a jitter below one second,
    capped at 60 seconds, plus the same margin of 500 ms (so it can reach
    60.5 seconds). *)
Theorem backoff_delay_with_margin max headers attempt model st :
  attempt < max ->
  (0 <= randomAt w (randomDraws st))%Q ->
  (randomAt w (randomDraws st) < 1)%Q ->
  exists d,
    fst (handleRateLimit w max headers attempt model st) = Ok d
    /\ match retryHint headers with
       | Some hint => (d == inject_Z (parseInt hint) * 1000 + 500)%Q
       | None =>
           exists jitter,
             (0 <= jitter)%Q /\ (jitter < 1000)%Q
             /\ (d == Qmin 60000 (inject_Z (2 ^ attempt * 1000) + jitter) + 500)%Q
             /\ (d <= 60500)%Q
       end.
Proof.
  intros Hlt H0 H1.
  destruct (handleRateLimit_retry max headers attempt model st Hlt)
    as (d & st' & Heq & _ & _ & _ & Hd).
  exists d. rewrite Heq. split; [done|].
  destruct (retryHint headers); [done|].
  exists (randomAt w (randomDraws st) * 1000)%Q.
  repeat split; [lra|lra|done|].
  rewrite Hd.
  pose proof (Q.le_min_l 60000
                (inject_Z (2 ^ attempt * 1000)
                 + randomAt w (randomDraws st) * 1000)).
  lra.
Qed.

Lemma preemptiveThrottle_frame model estIn estOut st :
  exists st1,
    preemptiveThrottle w model estIn estOut st = (Ok tt, st1)
    /\ liveCalls st1 = liveCalls st
    /\ store st1 = store st
    /\ rateLimitRetries (usage st1) = rateLimitRetries (usage st).
Proof.
  unfold preemptiveThrottle, checkRateLimitBudgetM, bind, dateNow. simpl.
  destruct (checkRateLimitBudget _ _ _ _ _) as [r b]. simpl.
  destruct (shouldWait r); simpl; eauto.
Qed.

Lemma callModel_rate_limited cacheEnabled key st h :
  servedLive cacheEnabled key st ->
  replyAt w (liveCalls st) = RateLimitReply h ->
  exists st2,
    callModel w cacheEnabled key st = (Err (ApiRateLimit h), st2)
    /\ liveCalls st2 = S (liveCalls st)
    /\ store st2 = store st
    /\ usage st2 = usage st.
Proof.
  intros Hlive Hreply. unfold callModel.
  assert (Hgen : exists st2,
             doGenerate w st = (Err (ApiRateLimit h), st2)
             /\ liveCalls st2 = S (liveCalls st)
             /\ store st2 = store st /\ usage st2 = usage st).
  { unfold doGenerate. rewrite Hreply. eauto. }
  destruct cacheEnabled; [|done].
  destruct Hlive as [?|[Hr Hmiss]]; [done|].
  destruct Hgen as (st2 & Hg & ?).
  exists st2. split; [|done].
  unfold wrapGenerate, bind, cacheGet. rewrite Hr, Hmiss. simpl.
  by rewrite Hg.
Qed.

Lemma servedLive_store cacheEnabled key st st' :
  store st' = store st ->
  servedLive cacheEnabled key st -> servedLive cacheEnabled key st'.
Proof. unfold servedLive. by intros ->. Qed.

Lemma requestLoop_unfold fuel cacheEnabled max model key estIn estOut attempt st :
  requestLoop w (S fuel) cacheEnabled max model key estIn estOut attempt st
  = match preemptiveThrottle w model estIn estOut st with
    | (Err e, st1) => Some (Err e, st1)
    | (Ok _, st1) =>
        match callModel w cacheEnabled key st1 with
        | (Ok result, st2) =>
            match recordSuccess w model result st2 with
            | (Ok _, st3) => Some (Ok (object result), st3)
            | (Err e, st3) => Some (Err e, st3)
            end
        | (Err (ApiRateLimit headers), st2) =>
            match handleRateLimit w max headers attempt model st2 with
            | (Ok waitTime, st3) =>
                requestLoop w fuel cacheEnabled max model key estIn estOut
                  (attempt + 1) (snd (sleep waitTime st3))
            | (Err e, st3) => Some (Err e, st3)
            end
        | (Err e, st2) => Some (Err e, st2)
        end
    end.
Proof. reflexivity. Qed.

Lemma requestLoop_exhausts cacheEnabled max model key estIn estOut :
  forall (k : nat) fuel attempt st,
    k = Z.to_nat (max - attempt) ->
    (k < fuel)%nat ->
    servedLive cacheEnabled key st ->
    (forall i, (i <= k)%nat ->
               exists h, replyAt w (liveCalls st + i) = RateLimitReply h) ->
    exists st',
      requestLoop w fuel cacheEnabled max model key estIn estOut attempt st
      = Some (Err (RateLimitExceeded model (Z.max attempt max)), st')
      /\ liveCalls st' = (liveCalls st + k + 1)%nat
      /\ rateLimitRetries (usage st')
         = rateLimitRetries (usage st) + Z.of_nat k + 1.
Proof.
  induction k as [|k IH]; intros fuel attempt st Hk Hfuel Hlive Hreplies.
  - destruct fuel as [|fuel]; [lia|]. rewrite requestLoop_unfold.
    destruct (preemptiveThrottle_frame model estIn estOut st)
      as (st1 & -> & L1 & S1 & R1).
    destruct (Hreplies 0%nat) as [h Hh]; [lia|].
    rewrite Nat.add_0_r, <- L1 in Hh.
    destruct (callModel_rate_limited cacheEnabled key st1 h
                (servedLive_store _ _ _ _ S1 Hlive) Hh)
      as (st2 & -> & L2 & S2 & U2).
    rewrite handleRateLimit_exhausted by lia.
    eexists. split; [|split].
    + repeat f_equal. lia.
    + simpl. lia.
    + simpl. rewrite U2, R1. lia.
  - destruct fuel as [|fuel]; [lia|]. rewrite requestLoop_unfold.
    destruct (preemptiveThrottle_frame model estIn estOut st)
      as (st1 & -> & L1 & S1 & R1).
    destruct (Hreplies 0%nat) as [h Hh]; [lia|].
    rewrite Nat.add_0_r, <- L1 in Hh.
    destruct (callModel_rate_limited cacheEnabled key st1 h
                (servedLive_store _ _ _ _ S1 Hlive) Hh)
      as (st2 & -> & L2 & S2 & U2).
    destruct (handleRateLimit_retry max h attempt model st2)
      as (d & st3 & -> & L3 & S3 & R3 & _); [lia|].
    destruct (IH fuel (attempt + 1) (snd (sleep d st3)))
      as (st' & Hloop & L' & R').
    + lia.
    + lia.
    + simpl. apply (servedLive_store _ _ st); [|done].
      simpl. congruence.
    + intros i Hi. simpl. rewrite L3, L2, L1.
      destruct (Hreplies (S i)) as [h' Hh']; [lia|].
      exists h'. rewrite <- Hh'. f_equal. lia.
    + exists st'. split; [|split].
      * rewrite Hloop.
        by replace (Z.max (attempt + 1) max) with (Z.max attempt max) by lia.
      * rewrite L'. simpl. lia.
      * rewrite R'. simpl. rewrite R3, U2, R1. lia.
Qed.

(** C6: when the service answers the first [maxRetries + 1] calls of a
    request with rate-limit rejections, [generateObject] ends with the
    error that carries the model name and the retry count, after exactly
    [maxRetries + 1] calls: the rejection that exceeds the ceiling is not
    followed by another call. *)
Theorem retry_ceiling_is_terminal fuel cacheEnabled max (o : Options) st :
  servedLive cacheEnabled (callParams o) st ->
  (forall i, (i <= Z.to_nat max)%nat ->
             exists h, replyAt w (liveCalls st + i) = RateLimitReply h) ->
  (Z.to_nat max < fuel)%nat ->
  exists st',
    generateObject w fuel cacheEnabled max o st
    = Some (Err (RateLimitExceeded (modelNameOf o) (Z.max 0 max)), st')
    /\ liveCalls st' = (liveCalls st + Z.to_nat max + 1)%nat
    /\ rateLimitRetries (usage st')
       = rateLimitRetries (usage st) + Z.max 0 max + 1.
Proof.
  intros Hlive Hreplies Hfuel. unfold generateObject.
  destruct (requestLoop_exhausts cacheEnabled max (modelNameOf o)
              (callParams o) (estimatedInput o) (estimatedOutput o)
              (Z.to_nat max) fuel 0 st)
    as (st' & Hloop & L & R); [f_equal; lia|done|done|done|].
  exists st'. split; [done|]. split; [done|]. rewrite R. lia.
Qed.

Lemma preemptiveThrottle_effect model estIn estOut st :
  let chk := checkRateLimitBudget (nowAt w (clockReads st)) model estIn estOut
               (rateLimitBudgets st) in
  exists st1,
    preemptiveThrottle w model estIn estOut st = (Ok tt, st1)
    /\ liveCalls st1 = liveCalls st
    /\ store st1 = store st
    /\ rateLimitRetries (usage st1) = rateLimitRetries (usage st)
    /\ rateLimitBudgets st1 = snd chk
    /\ preemptiveDelays (usage st1)
       = preemptiveDelays (usage st) + (if shouldWait (fst chk) then 1 else 0)
    /\ sleeps st1
       = sleeps st ++ (if shouldWait (fst chk)
                       then [inject_Z (waitTimeMs (fst chk))] else []).
Proof.
  unfold preemptiveThrottle, checkRateLimitBudgetM, bind, dateNow. simpl.
  destruct (checkRateLimitBudget _ _ _ _ _) as [r b]. simpl.
  destruct (shouldWait r); simpl; eexists; (split; [reflexivity|]); simpl;
    repeat split; try lia; by rewrite ?app_nil_r.
Qed.

Lemma updateUsage_delays m p c fc cc cr u :
  rateLimitRetries (updateUsage m p c fc cc cr u) = rateLimitRetries u
  /\ preemptiveDelays (updateUsage m p c fc cc cr u) = preemptiveDelays u.
Proof. unfold updateUsage. by destruct (PRICING !! m). Qed.

Lemma recordSuccess_frame model r st :
  exists st3,
    recordSuccess w model r st = (Ok tt, st3)
    /\ liveCalls st3 = liveCalls st
    /\ store st3 = store st
    /\ rateLimitRetries (usage st3) = rateLimitRetries (usage st)
    /\ preemptiveDelays (usage st3) = preemptiveDelays (usage st)
    /\ sleeps st3 = sleeps st
    /\ (responseHeaders r = None -> rateLimitBudgets st3 = rateLimitBudgets st).
Proof.
  unfold recordSuccess, bind.
  destruct (responseHeaders r) as [h|]; simpl.
  - destruct (rateLimitBudgets st !! model); simpl;
      (destruct (resultUsage r) as [u|]; simpl;
       eexists; (split; [reflexivity|]); simpl;
       repeat split; try done; apply updateUsage_delays).
  - destruct (resultUsage r) as [u|]; simpl;
      eexists; (split; [reflexivity|]); simpl;
      repeat split; try done; apply updateUsage_delays.
Qed.

Lemma callModel_hit key r st :
  cachedAs key r st -> callModel w true key st = (Ok r, st).
Proof.
  intros [Hr Hrow]. unfold callModel, wrapGenerate, bind, cacheGet.
  by rewrite Hr, Hrow.
Qed.

Lemma cachedAs_store key r st st' :
  store st' = store st -> cachedAs key r st -> cachedAs key r st'.
Proof. unfold cachedAs. by intros ->. Qed.

(** C1, as the code has it: a request whose key is in the response cache
    is answered from the cache in its first iteration, without any call to
    the service and without touching the retry counter or the store. The
    throttle, however, runs before the cache is looked up: the budgets, the
    preemptive-delay counter and the sleeps are those of
    [checkRateLimitBudget] on the request's estimates (for a cached result
    without rate-limit headers), so nothing is consumed or delayed only
    while the budget is uninitialized. *)
Theorem cache_hit_behind_throttle fuel max (o : Options) st r :
  cachedAs (callParams o) r st ->
  let chk := checkRateLimitBudget (nowAt w (clockReads st)) (modelNameOf o)
               (estimatedInput o) (estimatedOutput o) (rateLimitBudgets st) in
  exists st',
    generateObject w (S fuel) true max o st = Some (Ok (object r), st')
    /\ liveCalls st' = liveCalls st
    /\ rateLimitRetries (usage st') = rateLimitRetries (usage st)
    /\ store st' = store st
    /\ preemptiveDelays (usage st')
       = preemptiveDelays (usage st) + (if shouldWait (fst chk) then 1 else 0)
    /\ sleeps st'
       = sleeps st ++ (if shouldWait (fst chk)
                       then [inject_Z (waitTimeMs (fst chk))] else [])
    /\ (responseHeaders r = None -> rateLimitBudgets st' = snd chk)
    /\ (BudgetVocabulary.budgetInitialized (rateLimitBudgets st) (modelNameOf o)
        = false ->
        preemptiveDelays (usage st') = preemptiveDelays (usage st)
        /\ sleeps st' = sleeps st
        /\ (responseHeaders r = None ->
            rateLimitBudgets st' = rateLimitBudgets st)).
Proof.
  intros Hhit chk. unfold generateObject. rewrite requestLoop_unfold.
  destruct (preemptiveThrottle_effect (modelNameOf o) (estimatedInput o)
              (estimatedOutput o) st)
    as (st1 & -> & L1 & S1 & R1 & B1 & D1 & Z1).
  fold chk in B1, D1, Z1.
  rewrite (callModel_hit _ r st1) by (by eapply cachedAs_store).
  destruct (recordSuccess_frame (modelNameOf o) r st1)
    as (st3 & -> & L3 & S3 & R3 & D3 & Z3 & B3).
  exists st3. split; [done|].
  split; [congruence|]. split; [congruence|]. split; [congruence|].
  split; [congruence|]. split; [congruence|].
  split; [intros Hh; rewrite (B3 Hh); done|].
  intros Hun.
  pose proof (BudgetFacts.check_uninitialized (nowAt w (clockReads st))
                (modelNameOf o) (estimatedInput o) (estimatedOutput o)
                (rateLimitBudgets st) Hun) as Hchk.
  fold chk in Hchk. rewrite Hchk in *. simpl in *.
  split; [lia|]. split; [by rewrite Z3, Z1, app_nil_r|].
  intros Hh. by rewrite (B3 Hh).
Qed.

Lemma wrapGenerate_read_fault key st message :
  readFault (store st) = Some message ->
  wrapGenerate w key st = (Err (CacheFailure message), st).
Proof.
  intros H. unfold wrapGenerate, bind, cacheGet. by rewrite H.
Qed.

Lemma wrapGenerate_write_fault key st message r :
  readFault (store st) = None ->
  rows (store st) !! key = None ->
  writeFault (store st) = Some message ->
  replyAt w (liveCalls st) = Reply r ->
  exists st2,
    wrapGenerate w key st = (Err (CacheFailure message), st2)
    /\ liveCalls st2 = S (liveCalls st).
Proof.
  intros Hr Hmiss Hw Hreply.
  unfold wrapGenerate, bind, cacheGet, cacheSet, bind, doGenerate, dateNow.
  rewrite Hr, Hmiss. simpl. rewrite Hreply. simpl. rewrite Hw. eauto.
Qed.

Lemma wrapGenerate_miss key st r :
  readFault (store st) = None ->
  rows (store st) !! key = None ->
  writeFault (store st) = None ->
  replyAt w (liveCalls st) = Reply r ->
  exists st2,
    wrapGenerate w key st = (Ok r, st2)
    /\ value <$> rows (store st2) !! key = Some r.
Proof.
  intros Hr Hmiss Hw Hreply.
  unfold wrapGenerate, bind, cacheGet, cacheSet, bind, doGenerate, dateNow,
    setStore.
  rewrite Hr, Hmiss. simpl. rewrite Hreply. simpl. rewrite Hw. simpl.
  eexists. split; [reflexivity|]. simpl. by rewrite lookup_insert_eq.
Qed.

(** C3, as the code has it: the cache middleware does not catch the
    exceptions of the store. With the cache enabled, a failing read ends
    the request with the store's error before any call to the service; a
    failing write after a successful live call ends it with the store's
    error although the call was made; only a working store lets a miss
    resolve to the live result, which is then stored. *)
Theorem cache_failure_fails_request fuel max (o : Options) st :
  (forall message,
     readFault (store st) = Some message ->
     exists st',
       generateObject w (S fuel) true max o st
       = Some (Err (CacheFailure message), st')
       /\ liveCalls st' = liveCalls st)
  /\ (forall message r,
       readFault (store st) = None ->
       rows (store st) !! callParams o = None ->
       writeFault (store st) = Some message ->
       replyAt w (liveCalls st) = Reply r ->
       exists st',
         generateObject w (S fuel) true max o st
         = Some (Err (CacheFailure message), st')
         /\ liveCalls st' = S (liveCalls st))
  /\ (forall r,
       readFault (store st) = None ->
       rows (store st) !! callParams o = None ->
       writeFault (store st) = None ->
       replyAt w (liveCalls st) = Reply r ->
       exists st',
         generateObject w (S fuel) true max o st = Some (Ok (object r), st')
         /\ value <$> rows (store st') !! callParams o = Some r).
Proof.
  unfold generateObject. rewrite !requestLoop_unfold.
  destruct (preemptiveThrottle_effect (modelNameOf o) (estimatedInput o)
              (estimatedOutput o) st)
    as (st1 & -> & L1 & S1 & _).
  rewrite <- S1, <- L1.
  split; [|split].
  - intros message H. unfold callModel.
    rewrite (wrapGenerate_read_fault _ _ _ H). eauto.
  - intros message r Hr Hmiss Hw Hreply. unfold callModel.
    destruct (wrapGenerate_write_fault (callParams o) st1 message r)
      as (st2 & -> & L2); eauto.
  - intros r Hr Hmiss Hw Hreply. unfold callModel.
    destruct (wrapGenerate_miss (callParams o) st1 r)
      as (st2 & -> & Hrow); try done.
    destruct (recordSuccess_frame (modelNameOf o) r st2)
      as (st3 & -> & _ & S3 & _).
    exists st3. split; [done|]. by rewrite S3.
Qed.

End Facts.

Lemma backoff_delay_with_margin_witness :
  exists d,
    fst (handleRateLimit (rt := decimalRuntime) stillWorld 10 None 6
           "claude-3-5-haiku-latest" (stateWith ∅ emptyStore)) = Ok d
    /\ (d <= 60500)%Q.
Proof.
  destruct (backoff_delay_with_margin (rt := decimalRuntime) stillWorld 10
              None 6 "claude-3-5-haiku-latest" (stateWith ∅ emptyStore))
    as (d & Hd & jitter & _ & _ & _ & Hle).
  - lia.
  - simpl. lra.
  - simpl. lra.
  - exists d. split; [exact Hd | exact Hle].
Defined.

(** C7, as stated: at attempt 6 without a retry hint the delay is 60.5
    seconds, above the cap of 60 seconds; with a random draw of 0 it is not
    [min(60 s, 2^6 s + 0)] either. *)
Lemma backoff_delay_exceeds_cap :
  exists d,
    fst (handleRateLimit (rt := decimalRuntime) stillWorld 10 None 6
           "claude-3-5-haiku-latest" (stateWith ∅ emptyStore)) = Ok d
    /\ (60000 < d)%Q
    /\ ~ (d == Qmin 60000 (inject_Z (2 ^ 6 * 1000) + 0))%Q.
Proof.
  eexists. split; [vm_compute; reflexivity|]. split.
  - vm_compute. reflexivity.
  - vm_compute. discriminate.
Qed.

Lemma retry_ceiling_is_terminal_witness :
  exists st',
    generateObject (rt := decimalRuntime) throttlingWorld 3 true 2
      sampleRequest (stateWith (initialBudgets 1000 1001) emptyStore)
    = Some (Err (RateLimitExceeded "claude-3-5-haiku-latest" 2), st')
    /\ liveCalls st' = 3%nat
    /\ rateLimitRetries (usage st') = 3.
Proof.
  apply (retry_ceiling_is_terminal (rt := decimalRuntime) throttlingWorld 3
           true 2 sampleRequest (stateWith (initialBudgets 1000 1001) emptyStore)).
  - right. split; reflexivity.
  - intros i _. exists None. reflexivity.
  - simpl. lia.
Defined.

Lemma cache_hit_behind_throttle_witness :
  exists st',
    generateObject (rt := decimalRuntime) stillWorld 1 true 5 sampleRequest
      (stateWith (initialBudgets 1000 1001) (storeWith "k1" (plainResult "cached")))
    = Some (Ok "cached"%string, st')
    /\ liveCalls st' = 0%nat
    /\ rateLimitRetries (usage st') = 0.
Proof.
  destruct (cache_hit_behind_throttle (rt := decimalRuntime) stillWorld 0 5
              sampleRequest
              (stateWith (initialBudgets 1000 1001)
                 (storeWith "k1" (plainResult "cached")))
              (plainResult "cached"))
    as (st' & H1 & H2 & H3 & _).
  - split; reflexivity.
  - exists st'. split; [exact H1|]. split; [exact H2 | exact H3].
Defined.

(** C1, as stated: with an initialized budget, a request served from the
    cache (no call reaches the service) still lowers the remaining
    counters of its model; and with no request left it still takes a
    preemptive delay of 5000 ms. *)
Lemma cache_hit_consumes_budget :
  (exists st',
     generateObject (rt := decimalRuntime) stillWorld 1 true 5 sampleRequest
       (stateWith (budgetWith 50) (storeWith "k1" (plainResult "cached")))
     = Some (Ok "cached"%string, st')
     /\ liveCalls st' = 0%nat
     /\ (remaining ∘ requests) <$> budgetWith 50 !! "claude-3-5-haiku-latest"
        = Some 50
     /\ (remaining ∘ requests) <$>
          rateLimitBudgets st' !! "claude-3-5-haiku-latest" = Some 49
     /\ (remaining ∘ inputTokens) <$>
          rateLimitBudgets st' !! "claude-3-5-haiku-latest" = Some 29880
     /\ (remaining ∘ outputTokens) <$>
          rateLimitBudgets st' !! "claude-3-5-haiku-latest" = Some 9900)
  /\ (exists st',
       generateObject (rt := decimalRuntime) stillWorld 1 true 5 sampleRequest
         (stateWith (budgetWith 0) (storeWith "k1" (plainResult "cached")))
       = Some (Ok "cached"%string, st')
       /\ liveCalls st' = 0%nat
       /\ preemptiveDelays (usage st') = 1
       /\ sleeps st' = [inject_Z 5000]).
Proof.
  split.
  - eexists. split; [vm_compute; reflexivity|]. repeat split.
  - eexists. split; [vm_compute; reflexivity|]. repeat split.
Qed.

Lemma cache_failure_fails_request_witness :
  exists st',
    generateObject (rt := decimalRuntime) answeringWorld 1 true 5 sampleRequest
      (stateWith (initialBudgets 1000 1001) unreadableStore)
    = Some (Err (CacheFailure "disk I/O error"), st')
    /\ liveCalls st' = 0%nat.
Proof.
  apply (cache_failure_fails_request (rt := decimalRuntime) answeringWorld 0 5
           sampleRequest (stateWith (initialBudgets 1000 1001) unreadableStore)).
  reflexivity.
Defined.

(** C3, as stated: the service would answer "live", but with a store that
    cannot be read, or cannot be written, the request ends with the
    store's error; the same request resolves to "live" on a working
    store. *)
Lemma cache_failure_reaches_caller :
  fst <$> generateObject (rt := decimalRuntime) answeringWorld 1 true 5
            sampleRequest (stateWith (initialBudgets 1000 1001) unreadableStore)
  = Some (Err (CacheFailure "disk I/O error"))
  /\ fst <$> generateObject (rt := decimalRuntime) answeringWorld 1 true 5
              sampleRequest (stateWith (initialBudgets 1000 1001) unwritableStore)
     = Some (Err (CacheFailure "database is locked"))
  /\ fst <$> generateObject (rt := decimalRuntime) answeringWorld 1 true 5
              sampleRequest (stateWith (initialBudgets 1000 1001) emptyStore)
     = Some (Ok "live"%string).
Proof. repeat split; vm_compute; reflexivity. Qed.

End IntegrationFacts.

(** ** Bounded work dispatcher *)

Module DispatcherFacts.
Import Dispatcher DispatcherVocabulary.

Lemma size_list_to_set_le (l : list Z) :
  (size (list_to_set l : gset Z) <= length l)%nat.
Proof.
  induction l as [|x l IH].
  - rewrite list_to_set_nil, size_empty. simpl. lia.
  - rewrite list_to_set_cons, size_union_alt, size_singleton.
    assert (Hsub : list_to_set l ∖ {[x]} ⊆ (list_to_set l : gset Z))
      by set_solver.
    apply subseteq_size in Hsub. simpl. lia.
Qed.

Section Facts.
Context {Endpoint : Type} {eqEndpoint : EqDecision Endpoint}.
Variable endpoints : list Endpoint.

Lemma inFlight_cons (wk : Worker Endpoint) ws :
  length (filter (fun wk : Worker Endpoint => isAwaiting wk = true) (wk :: ws))
  = ((if isAwaiting wk then 1 else 0) + length (filter (fun wk : Worker Endpoint => isAwaiting wk = true) ws))%nat.
Proof.
  rewrite filter_cons.
  destruct (decide (isAwaiting wk = true)) as [E|E];
    destruct wk; simpl in *; congruence.
Qed.

Lemma inFlight_app (ws1 ws2 : list (Worker Endpoint)) :
  length (filter (fun wk : Worker Endpoint => isAwaiting wk = true) (ws1 ++ ws2))
  = (length (filter (fun wk : Worker Endpoint => isAwaiting wk = true) ws1) + length (filter (fun wk : Worker Endpoint => isAwaiting wk = true) ws2))%nat.
Proof. by rewrite filter_app, length_app. Qed.

Lemma inFlight_le_length (ws : list (Worker Endpoint)) :
  (length (filter (fun wk : Worker Endpoint => isAwaiting wk = true) ws) <= length ws)%nat.
Proof. apply length_filter. Qed.

Lemma inFlight_indices (ws : list (Worker Endpoint)) :
  length (awaitedIndices ws) = length (filter (fun wk : Worker Endpoint => isAwaiting wk = true) ws).
Proof.
  induction ws as [|wk ws IH]; [done|].
  rewrite inFlight_cons, <- IH. by destruct wk.
Qed.

Lemma inFlight_zero (ws : list (Worker Endpoint)) :
  length (filter (fun wk : Worker Endpoint => isAwaiting wk = true) ws) = 0%nat <-> Forall (fun wk => wk = Returned) ws.
Proof.
  induction ws as [|wk ws IH].
  - split; [constructor|done].
  - rewrite inFlight_cons. split.
    + intros Hz. destruct wk; simpl in Hz; [lia|].
      constructor; [done|]. apply IH. lia.
    + intros Hall. inversion Hall as [|? ? Hwk Hws]; subst. simpl.
      by apply IH.
Qed.

Lemma inFlight_full (ws : list (Worker Endpoint)) wk :
  length (filter (fun wk : Worker Endpoint => isAwaiting wk = true) ws) = length ws -> wk ∈ ws -> isAwaiting wk = true.
Proof.
  induction ws as [|x ws IH]; intros Hlen Hin.
  - by apply elem_of_nil in Hin.
  - rewrite inFlight_cons in Hlen. simpl in Hlen.
    pose proof (inFlight_le_length ws).
    apply elem_of_cons in Hin as [->|Hin].
    + destruct x; [done|simpl in Hlen; lia].
    + apply IH; [|done]. destruct (isAwaiting x); lia.
Qed.

Lemma workers_split (ws : list (Worker Endpoint)) w wk wk' :
  ws !! w = Some wk ->
  ws = take w ws ++ wk :: drop (S w) ws
  /\ <[w := wk']> ws = take w ws ++ wk' :: drop (S w) ws.
Proof.
  intros Hw. split.
  - by rewrite take_drop_middle.
  - apply insert_take_drop. by eapply lookup_lt_Some.
Qed.

Lemma inFlight_replace (ws : list (Worker Endpoint)) w wk wk' :
  ws !! w = Some wk ->
  (length (filter (fun wk : Worker Endpoint => isAwaiting wk = true) (<[w := wk']> ws)) + (if isAwaiting wk then 1 else 0)
   = length (filter (fun wk : Worker Endpoint => isAwaiting wk = true) ws) + (if isAwaiting wk' then 1 else 0))%nat.
Proof.
  intros Hw. destruct (workers_split ws w wk wk' Hw) as [E1 E2].
  rewrite E2. rewrite E1 at 3.
  rewrite !inFlight_app, !inFlight_cons. lia.
Qed.

Lemma awaited_replace (ws : list (Worker Endpoint)) w idx ep wk' :
  ws !! w = Some (Awaiting idx ep) ->
  (list_to_set (awaitedIndices ws) : gset Z) ∖ {[idx]}
  ⊆ list_to_set (awaitedIndices (<[w := wk']> ws)).
Proof.
  intros Hw. destruct (workers_split ws w _ wk' Hw) as [E1 E2].
  rewrite E2. rewrite E1 at 1. unfold awaitedIndices.
  rewrite !omap_app, !list_to_set_app_L. simpl.
  destruct (workerIndex wk'); simpl; set_solver.
Qed.

Lemma awaited_new (ws : list (Worker Endpoint)) w wk idx ep :
  ws !! w = Some wk ->
  idx ∈ (list_to_set (awaitedIndices (<[w := Awaiting idx ep]> ws)) : gset Z).
Proof.
  intros Hw. destruct (workers_split ws w _ (Awaiting idx ep) Hw) as [_ E2].
  rewrite E2. unfold awaitedIndices.
  rewrite !omap_app, !list_to_set_app_L. simpl. set_solver.
Qed.

Lemma settle_cases w o p m :
  settle endpoints w o p = Some m ->
  exists idx ep,
    workers p !! w = Some (Awaiting idx ep)
    /\ match o with
       | Resolved e => m = Running (resume endpoints w idx (Some e) p)
       | Rejected _ => m = Running (resume endpoints w idx None p)
       | ProcessExit code => m = Exited code p
       end.
Proof.
  unfold settle.
  destruct (workers p !! w) as [[idx ep|]|]; [|done|done].
  intros Hm. exists idx, ep. split; [done|].
  destruct o; congruence.
Qed.

Lemma resume_completed w idx res p :
  completed (resume endpoints w idx res p) = S (completed p).
Proof.
  unfold resume, claimNext, finishTask. simpl. by destruct (queue p).
Qed.

Lemma resume_invariant poolSize w idx ep res p :
  PoolInvariant endpoints poolSize p ->
  workers p !! w = Some (Awaiting idx ep) ->
  PoolInvariant endpoints poolSize (resume endpoints w idx res p).
Proof.
  intros [I1 I2 I3 I4 I5 I6] Hw.
  unfold inFlight in *.
  unfold resume, claimNext, finishTask. simpl.
  destruct (queue p) as [|next rest] eqn:Hq; simpl.
  - pose proof (inFlight_replace (workers p) w _ Returned Hw) as Hrep.
    simpl in Hrep.
    constructor; unfold inFlight; simpl.
    + done.
    + lia.
    + by rewrite length_insert.
    + done.
    + etransitivity; [|apply (awaited_replace _ _ _ _ _ Hw)]. set_solver.
    + destruct res; rewrite ?length_app; simpl; lia.
  - pose proof (inFlight_replace (workers p) w _
                  (Awaiting (indexOf endpoints next) next) Hw) as Hrep.
    simpl in Hrep.
    assert (Hbusy : length (filter (fun wk : Worker Endpoint => isAwaiting wk = true) (workers p)) = length (workers p)).
    { by apply I4. }
    constructor; unfold inFlight; simpl.
    + rewrite map_app. simpl. by rewrite <- app_assoc.
    + rewrite length_app. simpl. lia.
    + by rewrite length_insert.
    + intros _. rewrite length_insert. lia.
    + pose proof (awaited_replace _ _ _ _
                    (Awaiting (indexOf endpoints next) next) Hw).
      pose proof (awaited_new _ _ _ (indexOf endpoints next) next Hw).
      set_solver.
    + destruct res; rewrite ?length_app; simpl; lia.
Qed.

Lemma settle_invariant poolSize w o p m :
  PoolInvariant endpoints poolSize p ->
  settle endpoints w o p = Some m ->
  PoolInvariant endpoints poolSize (poolOf m).
Proof.
  intros Hinv Hs.
  destruct (settle_cases _ _ _ _ Hs) as (idx & ep & Hw & Hm).
  destruct o; subst m; simpl; eauto using resume_invariant.
Qed.

Lemma run_invariant poolSize sched :
  forall m m',
    PoolInvariant endpoints poolSize (poolOf m) ->
    runSchedule endpoints sched m = Some m' ->
    PoolInvariant endpoints poolSize (poolOf m').
Proof.
  induction sched as [|[w o] sched IH]; intros m m' Hinv Hrun; simpl in Hrun.
  - by simplify_eq.
  - destruct m as [p|]; [|done].
    destruct (settle endpoints w o p) as [m1|] eqn:Hs; [|done].
    eapply IH; [|done]. by eapply settle_invariant.
Qed.

Lemma run_completed sched :
  forall p m',
    Forall (fun ev => settlesPromise (snd ev)) sched ->
    runSchedule endpoints sched (Running p) = Some m' ->
    exists p', m' = Running p'
               /\ completed p' = (completed p + length sched)%nat.
Proof.
  induction sched as [|[w o] sched IH]; intros p m' Hall Hrun; simpl in Hrun.
  - simplify_eq. exists p. split; [done|simpl; lia].
  - inversion Hall as [|? ? Ho Hrest]; subst. simpl in Ho.
    destruct (settle endpoints w o p) as [m1|] eqn:Hs; [|done].
    destruct (settle_cases _ _ _ _ Hs) as (idx & ep & Hw & Hm).
    destruct o; [| |done]; subst m1;
      (destruct (IH _ _ Hrest Hrun) as (p' & -> & Hc);
       exists p'; split; [done|];
       rewrite Hc, resume_completed; simpl; lia).
Qed.

Lemma spawn_phase n :
  (n <= length endpoints)%nat ->
  let p := Nat.iter n (spawn endpoints) (emptyPool endpoints) in
  map snd (claims p) ++ queue p = endpoints
  /\ length (claims p) = n
  /\ length (workers p) = n
  /\ inFlight p = n
  /\ completed p = 0%nat
  /\ results p = []
  /\ inProgress p ⊆ list_to_set (awaitedIndices (workers p)).
Proof.
  induction n as [|n IH]; intros Hn; simpl.
  - unfold inFlight. simpl. repeat split; set_solver.
  - destruct IH as (I1 & I2 & I3 & I4 & I5 & I6 & I7); [lia|].
    set (p := Nat.iter n (spawn endpoints) (emptyPool endpoints)) in *.
    assert (Hq : queue p <> []).
    { intros Hq. rewrite Hq, app_nil_r in I1.
      apply (f_equal length) in I1. rewrite length_map in I1. lia. }
    unfold inFlight in *. unfold spawn, claimNext.
    destruct (queue p) as [|next rest]; [done|]. simpl.
    rewrite map_app, !length_app, inFlight_app, inFlight_cons. simpl.
    rewrite <- app_assoc. simpl.
    repeat split; try lia; try done.
    unfold awaitedIndices in *. rewrite omap_app, list_to_set_app_L. simpl.
    set_solver.
Qed.

Lemma start_invariant concurrency :
  PoolInvariant endpoints (poolSizeFor endpoints concurrency)
    (start endpoints concurrency)
  /\ completed (start endpoints concurrency) = 0%nat.
Proof.
  unfold start, poolSizeFor.
  destruct (spawn_phase (Z.to_nat (Z.min concurrency (Z.of_nat (length endpoints)))))
    as (I1 & I2 & I3 & I4 & I5 & I6 & I7); [lia|].
  split; [|done].
  constructor; try done.
  - lia.
  - intros _. lia.
  - rewrite I6. simpl. lia.
Qed.

(** C8: a dispatch of [N] endpoints with a concurrency limit of at least
    one. At every instant reached by any schedule of task settlements, at
    most [concurrency] tasks are in flight (and the in-progress set is no
    larger). Along a schedule in which every awaited task settles, each
    settlement is counted once; the endpoints shifted off the queue so far,
    followed by the queue, are the batch in its order, so every task is
    claimed once and by one worker; every claimed task is in flight or
    counted; as long as fewer than [N] outcomes are counted, a task is in
    flight and any awaiting worker can take its settlement; and all the
    coroutines have returned exactly when [N] outcomes are counted. *)
Theorem bounded_dispatch concurrency sched m :
  1 <= concurrency ->
  runSchedule endpoints sched (Running (start endpoints concurrency)) = Some m ->
  (Z.of_nat (inFlight (poolOf m)) <= concurrency
   /\ Z.of_nat (size (inProgress (poolOf m))) <= concurrency)
  /\ (Forall (fun ev => settlesPromise (snd ev)) sched ->
      exists p,
        m = Running p
        /\ completed p = length sched
        /\ (length sched <= length endpoints)%nat
        /\ map snd (claims p) ++ queue p = endpoints
        /\ (inFlight p + completed p = length (claims p))%nat
        /\ ((length sched < length endpoints)%nat ->
            (0 < inFlight p)%nat
            /\ forall w o, isAwaiting <$> workers p !! w = Some true ->
                           is_Some (settle endpoints w o p))
        /\ (allReturned p <-> length sched = length endpoints)).
Proof.
  intros Hc Hrun.
  destruct (start_invariant concurrency) as [Hinv0 Hc0].
  pose proof (run_invariant _ sched (Running (start endpoints concurrency)) m
                Hinv0 Hrun) as [I1 I2 I3 I4 I5 I6].
  assert (Hsize : (length (workers (poolOf m)) <= Z.to_nat concurrency)%nat).
  { rewrite I3. unfold poolSizeFor. lia. }
  assert (Hfl : (inFlight (poolOf m) <= length (workers (poolOf m)))%nat).
  { apply inFlight_le_length. }
  assert (Hset : (size (inProgress (poolOf m)) <= inFlight (poolOf m))%nat).
  { etransitivity; [apply subseteq_size, I5|].
    unfold inFlight. rewrite <- inFlight_indices.
    apply size_list_to_set_le. }
  split; [lia|].
  intros Hall.
  destruct (run_completed sched _ _ Hall Hrun) as (p & -> & Hcompleted).
  simpl in *. rewrite Hc0 in Hcompleted. simpl in Hcompleted.
  assert (Hlen : (length (claims p) + length (queue p) = length endpoints)%nat).
  { pose proof (f_equal length I1) as E.
    by rewrite length_app, length_map in E. }
  assert (Hdrained : allReturned p -> queue p = []).
  { intros Hret. apply inFlight_zero in Hret. fold (inFlight p) in Hret.
    destruct (queue p) as [|e q] eqn:Hq; [done|].
    assert (inFlight p = length (workers p)) as Hbusy by (by apply I4).
    simpl in Hlen. unfold poolSizeFor in I3. lia. }
  exists p. split; [done|]. split; [done|].
  split; [lia|]. split; [done|]. split; [done|]. split.
  - intros Hlt.
    assert (Hpos : (0 < inFlight p)%nat).
    { destruct (queue p) as [|e q] eqn:Hq.
      - simpl in Hlen. lia.
      - assert (inFlight p = length (workers p)) as Hbusy by (by apply I4).
        simpl in Hlen. unfold poolSizeFor in I3. lia. }
    split; [done|].
    intros w o Hw. unfold settle.
    destruct (workers p !! w) as [[idx ep|]|]; simpl in Hw; [|done|done].
    destruct o; by eexists.
  - split.
    + intros Hret. pose proof (Hdrained Hret) as Hq.
      apply inFlight_zero in Hret. fold (inFlight p) in Hret.
      rewrite Hq in Hlen. simpl in Hlen. lia.
    + intros Heq. apply inFlight_zero. fold (inFlight p). lia.
Qed.

(** C2, as the code has it: a failed parameter or response call is
    replaced by a fallback inside the task, which still resolves; a
    rejection that reaches the dispatcher is counted as completed, adds no
    result and leaves every other worker as it was; but a failed
    description call makes [enhanceEndpoint] terminate the process with
    exit code 1: the pool is left as it is and no further settlement is
    processed. *)
Theorem task_failure_handling (endpoint : Endpoint) info failure parameters
    responses w idx ep message (p : Pool Endpoint) :
  workers p !! w = Some (Awaiting idx ep) ->
  (exists e,
     enhanceEndpoint endpoint (Integration.Ok info) parameters responses
     = Resolved e
     /\ (forall err, parameters = Integration.Err err ->
                     enhancedParameters e = Fallback)
     /\ (forall err, responses = Integration.Err err ->
                     enhancedResponses e = Fallback))
  /\ (exists p',
       settle endpoints w (Rejected message) p = Some (Running p')
       /\ completed p' = S (completed p)
       /\ results p' = results p
       /\ forall w', w' <> w -> workers p' !! w' = workers p !! w')
  /\ enhanceEndpoint endpoint (Integration.Err failure) parameters responses
     = ProcessExit 1
  /\ settle endpoints w
       (enhanceEndpoint endpoint (Integration.Err failure) parameters responses) p
     = Some (Exited 1 p)
  /\ forall ev sched,
       runSchedule endpoints (ev :: sched) (Exited 1 p) = None.
Proof.
  intros Hw. split; [|split; [|split; [|split]]].
  - eexists. split; [reflexivity|]. simpl. split; by intros err ->.
  - unfold settle. rewrite Hw. unfold resume, claimNext, finishTask. simpl.
    destruct (queue p); simpl; eexists; (split; [reflexivity|]); simpl;
      repeat split; intros w' Hne; by rewrite list_lookup_insert_ne.
  - reflexivity.
  - unfold settle. by rewrite Hw.
  - by intros [w' o] sched.
Qed.

End Facts.

Lemma bounded_dispatch_witness :
  exists p,
    runSchedule fiveEndpoints fiveSettlements (Running (start fiveEndpoints 2))
    = Some (Running p)
    /\ completed p = 5%nat
    /\ map snd (claims p) = fiveEndpoints
    /\ allReturned p.
Proof.
  destruct (runSchedule fiveEndpoints fiveSettlements
              (Running (start fiveEndpoints 2))) as [m|] eqn:Hrun;
    [|vm_compute in Hrun; discriminate Hrun].
  destruct (bounded_dispatch fiveEndpoints 2 fiveSettlements m) as [_ Hall];
    [lia|exact Hrun|].
  destruct Hall as (p & -> & Hc & _ & Hclaims & Hacc & _ & Hret).
  { repeat constructor. }
  exists p. split; [reflexivity|]. split; [exact Hc|].
  assert (Hdone : allReturned p) by (apply Hret; reflexivity).
  split; [|exact Hdone].
  destruct (queue p) as [|e q] eqn:Hq.
  - by rewrite app_nil_r in Hclaims.
  - exfalso. apply inFlight_zero in Hdone. fold (inFlight p) in Hdone.
    apply (f_equal length) in Hclaims.
    rewrite length_app, length_map in Hclaims. simpl in Hclaims.
    rewrite Hc in Hacc. simpl in Hacc. lia.
Defined.

Lemma task_failure_handling_witness :
  settle sampleEndpoints 0
    (enhanceEndpoint "/a"%string exhaustedRetries (Integration.Ok "p"%string)
       (Integration.Ok "r"%string))
    (start sampleEndpoints 2)
  = Some (Exited 1 (start sampleEndpoints 2)).
Proof.
  apply (task_failure_handling sampleEndpoints "/a"%string "info"%string
           (Integration.RateLimitExceeded "claude-3-5-haiku-latest" 5)
           (Integration.Ok "p"%string) (Integration.Ok "r"%string)
           0%nat 0 "/a"%string "message"%string (start sampleEndpoints 2)).
  reflexivity.
Defined.

(** C2, as stated: three endpoints at concurrency 2. The description call
    of the first task fails after exhausted retries; the process exits with
    code 1 while the second task is in flight and the third is still
    queued. Nothing was counted, and no later settlement is processed. *)
Lemma failed_task_aborts_dispatch :
  let outcome :=
    enhanceEndpoint "/a"%string exhaustedRetries (Integration.Ok "p"%string)
      (Integration.Ok "r"%string) in
  exists p,
    runSchedule sampleEndpoints [(0%nat, outcome)]
      (Running (start sampleEndpoints 2))
    = Some (Exited 1 p)
    /\ completed p = 0%nat
    /\ results p = []
    /\ workers p = [Awaiting 0 "/a"; Awaiting 1 "/b"]%string
    /\ queue p = ["/c"]%string
    /\ forall ev,
         runSchedule sampleEndpoints [(0%nat, outcome); ev]
           (Running (start sampleEndpoints 2))
         = None.
Proof.
  cbv zeta. eexists. split; [vm_compute; reflexivity|].
  repeat split. intros [w o]. reflexivity.
Qed.

(** C8, as stated: five endpoints. With a concurrency limit of 0 the loop
    that starts the coroutines does not run: the dispatch is over at once
    with all five endpoints still queued, none claimed, no outcome
    recorded, and no settlement can follow. With a limit of 2, the
    description call of the first task fails after exhausted retries and
    the process exits while one other task is in flight and three are
    queued: 0 of 5 outcomes are recorded and nothing can follow. *)
Lemma dispatch_records_fewer_outcomes :
  let outcome :=
    enhanceEndpoint "/a"%string exhaustedRetries (Integration.Ok "p"%string)
      (Integration.Ok "r"%string) in
  (allReturned (start fiveEndpoints 0)
   /\ completed (start fiveEndpoints 0) = 0%nat
   /\ results (start fiveEndpoints 0) = []
   /\ claims (start fiveEndpoints 0) = []
   /\ queue (start fiveEndpoints 0) = fiveEndpoints
   /\ forall w o, settle fiveEndpoints w o (start fiveEndpoints 0) = None)
  /\ exists p,
       runSchedule fiveEndpoints [(0%nat, outcome)]
         (Running (start fiveEndpoints 2))
       = Some (Exited 1 p)
       /\ completed p = 0%nat
       /\ results p = []
       /\ claims p = [(0%nat, "/a"); (1%nat, "/b")]%string
       /\ queue p = ["/c"; "/d"; "/e"]%string
       /\ forall ev,
            runSchedule fiveEndpoints [(0%nat, outcome); ev]
              (Running (start fiveEndpoints 2))
            = None.
Proof.
  cbv zeta. split.
  - split; [constructor|]. repeat split.
  - eexists. split; [vm_compute; reflexivity|].
    repeat split. intros [w o]. reflexivity.
Qed.

End DispatcherFacts.

(** ** Budget tracker: bounds, invariants and authoritative updates *)

Module BudgetMore.
Import Budget BudgetVocabulary BudgetInvariants BudgetFacts.

Lemma fails_or_not now estIn estOut b :
  (exists c, fails now estIn estOut b c)
  \/ (forall c, ~ fails now estIn estOut b c).
Proof.
  unfold fails.
  destruct (Z_lt_dec (remaining (windowOf Requests (rollBudget now b)))
              (needOf estIn estOut Requests)); [left; by exists Requests|].
  destruct (Z_lt_dec (remaining (windowOf InputTokens (rollBudget now b)))
              (needOf estIn estOut InputTokens)); [left; by exists InputTokens|].
  destruct (Z_lt_dec (remaining (windowOf OutputTokens (rollBudget now b)))
              (needOf estIn estOut OutputTokens)); [left; by exists OutputTokens|].
  right. by intros [].
Qed.

Lemma checkInitialized_bounds now estIn estOut b :
  let r := fst (checkInitialized now estIn estOut b) in
  (shouldWait r = true <-> 0 < waitTimeMs r)
  /\ 0 <= waitTimeMs r <= 60000.
Proof.
  unfold checkInitialized.
  generalize (rollBudget now b). intros [[l1 r1 t1] [l2 r2 t2] [l3 r3 t3] ini].
  simpl.
  destruct (r1 <? 1); destruct (r2 <? estIn); destruct (r3 <? estOut);
    simpl; rewrite Z.ltb_lt; lia.
Qed.

(** X1: whatever the budgets and the estimates, [checkRateLimitBudget]
    reports a wait exactly when the returned wait time is positive, and the
    wait time is never negative and never above 60000 ms. *)
Theorem check_wait_time_bounded now modelName estIn estOut (budgets : Budgets) :
  let r := fst (checkRateLimitBudget now modelName estIn estOut budgets) in
  (shouldWait r = true <-> 0 < waitTimeMs r)
  /\ 0 <= waitTimeMs r <= 60000.
Proof.
  unfold checkRateLimitBudget.
  destruct (budgets !! modelName) as [b|]; [|simpl; split; [split|]; (done || lia)].
  destruct (initialized b); simpl; [|split; [split|]; (done || lia)].
  pose proof (checkInitialized_bounds now estIn estOut b) as H.
  by destruct (checkInitialized now estIn estOut b).
Qed.

Lemma rollWindow_ok now w : windowOk w -> windowOk (rollWindow now w).
Proof.
  unfold windowOk, rollWindow. destruct (resetTime w <=? now); simpl; lia.
Qed.

Lemma check_lookup now modelName estIn estOut (budgets : Budgets) b :
  budgets !! modelName = Some b ->
  snd (checkRateLimitBudget now modelName estIn estOut budgets) !! modelName
  = Some (if initialized b
          then snd (checkInitialized now estIn estOut b) else b).
Proof.
  intros Hb. destruct (initialized b) eqn:Hi.
  - rewrite (check_initialized _ _ _ _ _ _ Hb Hi). simpl.
    apply lookup_insert_eq.
  - rewrite check_uninitialized; [done|].
    unfold budgetInitialized. by rewrite Hb.
Qed.

Lemma checkInitialized_result now estIn estOut b :
  snd (checkInitialized now estIn estOut b) = rollBudget now b
  \/ ((forall c, ~ fails now estIn estOut b c)
      /\ snd (checkInitialized now estIn estOut b)
         = reserve estIn estOut (rollBudget now b)).
Proof.
  destruct (fails_or_not now estIn estOut b) as [Hex|Hno].
  - left. by destruct (checkInitialized_waits now estIn estOut b Hex)
      as (_ & _ & _ & ?).
  - right. split; [done|].
    by destruct (checkInitialized_proceeds now estIn estOut b Hno).
Qed.

(** X2: with non-negative estimates, [checkRateLimitBudget] keeps
    [0 <= remaining <= limit] in each of the three windows of the model's
    budget, through roll-over and reservation alike. *)
Theorem check_keeps_remaining_within_limit now modelName estIn estOut
    (budgets : Budgets) b :
  0 <= estIn -> 0 <= estOut ->
  budgets !! modelName = Some b ->
  budgetOk b ->
  exists b',
    snd (checkRateLimitBudget now modelName estIn estOut budgets) !! modelName
    = Some b'
    /\ budgetOk b'.
Proof.
  intros Hin Hout Hb (O1 & O2 & O3).
  rewrite (check_lookup _ _ _ _ _ _ Hb).
  eexists. split; [reflexivity|].
  destruct (initialized b); [|done].
  assert (Hroll : budgetOk (rollBudget now b)).
  { repeat split; simpl; by apply rollWindow_ok. }
  destruct (checkInitialized_result now estIn estOut b) as [->|[Hno ->]];
    [done|].
  pose proof (Hno Requests) as N1.
  pose proof (Hno InputTokens) as N2.
  pose proof (Hno OutputTokens) as N3.
  unfold fails in N1, N2, N3. simpl in N1, N2, N3.
  destruct Hroll as ((? & ?) & (? & ?) & (? & ?)). simpl in *.
  unfold budgetOk, windowOk, reserve, debit. simpl. lia.
Qed.

Lemma check_keeps_remaining_within_limit_witness :
  exists b',
    snd (checkRateLimitBudget 4000 "claude-3-5-haiku-latest" 120 100
           (IntegrationVocabulary.budgetWith 50)) !! "claude-3-5-haiku-latest"
    = Some b'
    /\ budgetOk b'.
Proof.
  apply (check_keeps_remaining_within_limit 4000 "claude-3-5-haiku-latest" 120
           100 (IntegrationVocabulary.budgetWith 50)
           {| requests := {| limit := 50; remaining := 50; resetTime := 9000 |};
              inputTokens := {| limit := 30000; remaining := 30000; resetTime := 9000 |};
              outputTokens := {| limit := 10000; remaining := 10000; resetTime := 9000 |};
              initialized := true |}).
  - lia.
  - lia.
  - reflexivity.
  - unfold budgetOk, windowOk. simpl. lia.
Defined.

Lemma rollWindow_reset_monotone now w :
  resetTime w <= resetTime (rollWindow now w).
Proof.
  unfold rollWindow. destruct (Z.leb_spec (resetTime w) now); simpl; lia.
Qed.

(** X3: [checkRateLimitBudget] never moves a reset time backwards, and
    after checking an initialized budget each of its three reset times lies
    strictly after [now]. *)
Theorem check_reset_times_move_forward now modelName estIn estOut
    (budgets : Budgets) b :
  budgets !! modelName = Some b ->
  exists b',
    snd (checkRateLimitBudget now modelName estIn estOut budgets) !! modelName
    = Some b'
    /\ (forall c, resetTime (windowOf c b) <= resetTime (windowOf c b'))
    /\ (initialized b = true -> forall c, now < resetTime (windowOf c b')).
Proof.
  intros Hb. rewrite (check_lookup _ _ _ _ _ _ Hb).
  eexists. split; [reflexivity|].
  destruct (initialized b); [|split; [intros c; lia|done]].
  assert (E : forall c,
             resetTime (windowOf c (snd (checkInitialized now estIn estOut b)))
             = resetTime (windowOf c (rollBudget now b))).
  { intros c.
    destruct (checkInitialized_result now estIn estOut b) as [->|[_ ->]];
      [done|by destruct c]. }
  split.
  - intros c. rewrite E. destruct c; simpl; apply rollWindow_reset_monotone.
  - intros _ c. rewrite E. destruct c; simpl; apply rollWindow_future.
Qed.

Lemma check_reset_times_move_forward_witness :
  exists b',
    snd (checkRateLimitBudget 9500 "claude-3-5-haiku-latest" 120 100
           (IntegrationVocabulary.budgetWith 0)) !! "claude-3-5-haiku-latest"
    = Some b'
    /\ (forall c, 9000 <= resetTime (windowOf c b')).
Proof.
  destruct (check_reset_times_move_forward 9500 "claude-3-5-haiku-latest" 120
              100 (IntegrationVocabulary.budgetWith 0)
              {| requests := {| limit := 50; remaining := 0; resetTime := 9000 |};
                 inputTokens := {| limit := 30000; remaining := 30000; resetTime := 9000 |};
                 outputTokens := {| limit := 10000; remaining := 10000; resetTime := 9000 |};
                 initialized := true |})
    as (b' & Hb' & Hmono & _).
  - reflexivity.
  - exists b'. split; [exact Hb'|].
    intros c. specialize (Hmono c). destruct c; simpl in Hmono; exact Hmono.
Defined.

(** X4: [checkRateLimitBudget] changes neither a limit nor the
    initialized flag of the model's budget, and neither it nor
    [updateRateLimitBudgets] touches the budget of any other model. *)
Theorem check_and_update_are_local {rt : JsRuntime} createdAt now modelName
    estIn estOut headers (budgets : Budgets) :
  (forall b,
     budgets !! modelName = Some b ->
     exists b',
       snd (checkRateLimitBudget now modelName estIn estOut budgets) !! modelName
       = Some b'
       /\ initialized b' = initialized b
       /\ forall c, limit (windowOf c b') = limit (windowOf c b))
  /\ (forall other,
        other <> modelName ->
        snd (checkRateLimitBudget now modelName estIn estOut budgets) !! other
        = budgets !! other
        /\ updateRateLimitBudgets createdAt now modelName headers budgets !! other
           = budgets !! other).
Proof.
  split.
  - intros b Hb. rewrite (check_lookup _ _ _ _ _ _ Hb).
    eexists. split; [reflexivity|].
    destruct (initialized b) eqn:Hi; [|by rewrite Hi].
    assert (Hroll : forall c, limit (windowOf c (rollBudget now b))
                              = limit (windowOf c b)).
    { intros []; simpl; unfold rollWindow;
        match goal with |- context [?x <=? now] => by destruct (x <=? now) end. }
    destruct (checkInitialized_result now estIn estOut b) as [->|[_ ->]].
    + split; [by rewrite <- Hi|done].
    + split; [by rewrite <- Hi|]. intros c. rewrite <- Hroll. by destruct c.
  - intros other Hne. split.
    + unfold checkRateLimitBudget.
      destruct (budgets !! modelName) as [b|]; [|done].
      destruct (initialized b); [|done]. simpl.
      destruct (checkInitialized now estIn estOut b). simpl.
      by rewrite lookup_insert_ne.
    + unfold updateRateLimitBudgets. destruct headers; [|done].
      by rewrite lookup_insert_ne.
Qed.

Lemma updateWindow_present {rt : JsRuntime} now (headers : RateLimitHeaders)
    kLimit kRemaining kReset dflt old1 old2 :
  truthy (headers !! kLimit) = true ->
  truthy (headers !! kRemaining) = true ->
  updateWindow now headers kLimit kRemaining kReset dflt old1
  = updateWindow now headers kLimit kRemaining kReset dflt old2.
Proof. unfold updateWindow. by intros -> ->. Qed.

(** X5: when the headers carry a limit and a remaining value for all three
    categories, the budget stored by [updateRateLimitBudgets] is determined
    by the headers and the clock alone: whatever was tracked or reserved
    before is discarded. *)
Theorem update_overrides_reservations {rt : JsRuntime} created1 created2 now
    modelName (headers : RateLimitHeaders) (budgets1 budgets2 : Budgets) :
  completeHeaders headers = true ->
  updateRateLimitBudgets created1 now modelName (Some headers) budgets1
    !! modelName
  = updateRateLimitBudgets created2 now modelName (Some headers) budgets2
      !! modelName.
Proof.
  intros H. unfold completeHeaders in H. simpl in H.
  repeat (apply andb_prop in H; destruct H as [? H]).
  unfold updateRateLimitBudgets. rewrite !lookup_insert_eq.
  f_equal. f_equal; by apply updateWindow_present.
Qed.

Lemma update_overrides_reservations_witness :
  updateRateLimitBudgets (rt := decimalRuntime) 1000 5000
    "claude-3-5-haiku-latest" (Some fullHeaders)
    (IntegrationVocabulary.budgetWith 0) !! "claude-3-5-haiku-latest"
  = updateRateLimitBudgets (rt := decimalRuntime) 2000 5000
      "claude-3-5-haiku-latest" (Some fullHeaders) ∅
      !! "claude-3-5-haiku-latest".
Proof.
  apply (update_overrides_reservations (rt := decimalRuntime) 1000 2000 5000
           "claude-3-5-haiku-latest" fullHeaders
           (IntegrationVocabulary.budgetWith 0) ∅).
  reflexivity.
Defined.

(** X6: once the reset times of all three windows have passed, an
    initialized budget whose limits cover the request lets it through: no
    wait is reported, each window restarts at its limit minus what the
    request reserves, and resets 60000 ms after [now]. *)
Theorem check_proceeds_after_reset now modelName estIn estOut
    (budgets : Budgets) b :
  budgets !! modelName = Some b ->
  initialized b = true ->
  (forall c, resetTime (windowOf c b) <= now) ->
  (forall c, needOf estIn estOut c <= limit (windowOf c b)) ->
  shouldWait (fst (checkRateLimitBudget now modelName estIn estOut budgets))
  = false
  /\ exists b',
       snd (checkRateLimitBudget now modelName estIn estOut budgets) !! modelName
       = Some b'
       /\ forall c,
            remaining (windowOf c b')
            = limit (windowOf c b) - needOf estIn estOut c
            /\ resetTime (windowOf c b') = now + 60000.
Proof.
  intros Hb Hi Hreset Hlimit.
  assert (Hroll : forall c,
             windowOf c (rollBudget now b)
             = {| limit := limit (windowOf c b);
                  remaining := limit (windowOf c b);
                  resetTime := now + 60000 |}).
  { intros c. specialize (Hreset c).
    destruct c; simpl in *; unfold rollWindow;
      match goal with |- context [?x <=? now] =>
        destruct (Z.leb_spec x now); [done|lia] end. }
  assert (Hno : forall c, ~ fails now estIn estOut b c).
  { intros c. unfold fails. rewrite Hroll. simpl. specialize (Hlimit c). lia. }
  destruct (checkInitialized_proceeds now estIn estOut b Hno) as [H1 H2].
  rewrite (check_initialized _ _ _ _ _ _ Hb Hi). simpl. rewrite H1, H2.
  split; [done|].
  eexists. split; [apply lookup_insert_eq|].
  intros c. pose proof (Hroll c) as E.
  destruct c; simpl in *; rewrite E; done.
Qed.

Lemma check_proceeds_after_reset_witness :
  shouldWait
    (fst (checkRateLimitBudget 9500 "claude-3-5-haiku-latest" 120 100
            (IntegrationVocabulary.budgetWith 0))) = false.
Proof.
  apply (check_proceeds_after_reset 9500 "claude-3-5-haiku-latest" 120 100
           (IntegrationVocabulary.budgetWith 0)
           {| requests := {| limit := 50; remaining := 0; resetTime := 9000 |};
              inputTokens := {| limit := 30000; remaining := 30000; resetTime := 9000 |};
              outputTokens := {| limit := 10000; remaining := 10000; resetTime := 9000 |};
              initialized := true |}).
  - reflexivity.
  - reflexivity.
  - intros []; simpl; lia.
  - intros []; simpl; lia.
Defined.

End BudgetMore.

(** ** Usage accountant: identities *)

Module UsageMore.
Import Usage IntegrationMore.

Lemma applyOp_savings u op :
  cachingSavings u = costWithoutCaching u - cost u ->
  cachingSavings (applyOp u op) = costWithoutCaching (applyOp u op)
                                  - cost (applyOp u op).
Proof.
  intros H. destruct op as [m p c fc cc cr| |]; simpl; [|done|done].
  unfold updateUsage. by destruct (PRICING !! m).
Qed.

(** X7: at every point of a process lifetime the ledger satisfies
    [cachingSavings = costWithoutCaching - cost], whatever sequence of
    recorded calls, retries and preemptive delays led there. *)
Theorem savings_identity ops :
  cachingSavings (applyOps ops emptyUsage)
  = costWithoutCaching (applyOps ops emptyUsage) - cost (applyOps ops emptyUsage).
Proof.
  unfold applyOps.
  assert (H : cachingSavings emptyUsage
              = costWithoutCaching emptyUsage - cost emptyUsage) by done.
  revert H. generalize emptyUsage.
  induction ops as [|op ops IH]; intros u H; simpl; [done|].
  by apply IH, applyOp_savings.
Qed.

Lemma countRecords_cons fromCache op ops :
  countRecords fromCache (op :: ops)
  = (if recordsCall fromCache op then 1 else 0) + countRecords fromCache ops.
Proof.
  unfold countRecords. rewrite filter_cons.
  destruct (recordsCall fromCache op) eqn:E; case_decide; simpl;
    try congruence; lia.
Qed.

(** X8: the ledger counts every recorded call of a priced model exactly
    once, as live or as cached according to the flag it was recorded with;
    a call of a model without pricing entry, a retry or a preemptive delay
    changes neither count. *)
Theorem requests_counted_once ops :
  liveRequests (applyOps ops emptyUsage) = countRecords false ops
  /\ cachedRequests (applyOps ops emptyUsage) = countRecords true ops.
Proof.
  unfold applyOps.
  assert (H : forall u,
             liveRequests (fold_left applyOp ops u)
             = liveRequests u + countRecords false ops
             /\ cachedRequests (fold_left applyOp ops u)
                = cachedRequests u + countRecords true ops).
  { induction ops as [|op ops IH]; intros u; simpl.
    - unfold countRecords. simpl. lia.
    - destruct (IH (applyOp u op)) as [-> ->].
      rewrite !countRecords_cons.
      destruct op as [m p c fc cc cr| |]; simpl; [|lia|lia].
      unfold updateUsage, priced.
      destruct (PRICING !! m); destruct fc; simpl; lia. }
  destruct (H emptyUsage) as [-> ->]. simpl. lia.
Qed.

End UsageMore.

(** ** Request loop: termination, error paths and bookkeeping *)

Module LoopMore.
Import Budget Usage Integration IntegrationVocabulary IntegrationMore
  IntegrationFacts.

Lemma modelName_priced (o : Options) :
  exists pricing, PRICING !! modelNameOf o = Some pricing.
Proof. unfold modelNameOf. destruct (useSmart o); by eexists. Qed.

Section Loop.
Context {rt : JsRuntime} (w : World).

Lemma preemptiveThrottle_usage model estIn estOut st :
  exists st1,
    preemptiveThrottle w model estIn estOut st = (Ok tt, st1)
    /\ (usage st1 = usage st \/ usage st1 = countDelay (usage st))
    /\ liveCalls st1 = liveCalls st
    /\ store st1 = store st.
Proof.
  unfold preemptiveThrottle, checkRateLimitBudgetM, bind, dateNow. simpl.
  destruct (checkRateLimitBudget _ _ _ _ _) as [r b]. simpl.
  destruct (shouldWait r); simpl; eauto 10.
Qed.

Lemma callModel_frame cacheEnabled key st res st2 :
  callModel w cacheEnabled key st = (res, st2) ->
  usage st2 = usage st
  /\ rateLimitBudgets st2 = rateLimitBudgets st
  /\ sleeps st2 = sleeps st
  /\ (liveCalls st2 = liveCalls st \/ liveCalls st2 = S (liveCalls st)).
Proof.
  unfold callModel, wrapGenerate, bind, cacheGet, cacheSet, bind, doGenerate,
    dateNow, setStore, ret.
  destruct cacheEnabled;
    [destruct (readFault (store st)); [|destruct (rows (store st) !! key)]|];
    simpl;
    try (destruct (replyAt w (liveCalls st)); simpl);
    try (destruct (writeFault (store st)); simpl);
    intros; simplify_eq; simpl; auto.
Qed.

Lemma recordSuccess_usage model r st :
  exists st3,
    recordSuccess w model r st = (Ok tt, st3)
    /\ usage st3
       = match resultUsage r with
         | Some u =>
             updateUsage model (usagePromptTokens u) (usageCompletionTokens u)
               false (Some (default 0 (cacheCreationInputTokens r)))
               (Some (default 0 (cacheReadInputTokens r))) (usage st)
         | None => usage st
         end
    /\ liveCalls st3 = liveCalls st.
Proof.
  unfold recordSuccess, bind.
  destruct (responseHeaders r) as [h|]; simpl.
  - destruct (rateLimitBudgets st !! model); simpl;
      (destruct (resultUsage r) as [u|]; simpl; eauto).
  - destruct (resultUsage r) as [u|]; simpl; eauto.
Qed.

Lemma handleRateLimit_frame max h attempt model st res st3 :
  handleRateLimit w max h attempt model st = (res, st3) ->
  usage st3 = countRetry (usage st)
  /\ liveCalls st3 = liveCalls st
  /\ store st3 = store st
  /\ sleeps st3 = sleeps st
  /\ ((max <= attempt /\ res = Err (RateLimitExceeded model attempt))
      \/ (attempt < max /\ exists d, res = Ok d)).
Proof.
  unfold handleRateLimit, bind, throw, ret, updateRateLimitBudgetsM,
    mathRandom, dateNow, setBudgets, setUsage, bind, ret. simpl.
  destruct (Z.leb_spec max attempt).
  - intros. simplify_eq. simpl. eauto 10.
  - destruct h as [h|]; simpl.
    + destruct (truthy (h !! "retry-after")); simpl.
      * destruct (rateLimitBudgets st !! model); simpl;
          intros; simplify_eq; simpl; eauto 10.
      * intros; simplify_eq; simpl; eauto 10.
    + intros; simplify_eq; simpl; eauto 10.
Qed.

Lemma requestLoop_settles cacheEnabled max model key estIn estOut :
  forall (k : nat) fuel attempt st,
    k = Z.to_nat (max - attempt) ->
    (k < fuel)%nat ->
    exists res st',
      requestLoop w fuel cacheEnabled max model key estIn estOut attempt st
      = Some (res, st')
      /\ (liveCalls st' <= liveCalls st + k + 1)%nat.
Proof.
  induction k as [|k IH]; intros fuel attempt st Hk Hfuel;
    (destruct fuel as [|fuel]; [lia|]); rewrite requestLoop_unfold;
    destruct (preemptiveThrottle_usage model estIn estOut st)
      as (st1 & -> & _ & L1 & _);
    destruct (callModel w cacheEnabled key st1) as [[r|e] st2] eqn:Hcall;
    destruct (callModel_frame _ _ _ _ _ Hcall) as (_ & _ & _ & L2).
  - destruct (recordSuccess_usage model r st2) as (st3 & -> & _ & L3).
    eexists _, _. split; [reflexivity|]. lia.
  - destruct e as [h| | |]; try (eexists _, _; split; [reflexivity|lia]).
    destruct (handleRateLimit w max h attempt model st2) as [res st3] eqn:Hh.
    destruct (handleRateLimit_frame _ _ _ _ _ _ _ Hh)
      as (_ & L3 & _ & _ & [[_ ->]|[? _]]); [|lia].
    eexists _, _. split; [reflexivity|]. lia.
  - destruct (recordSuccess_usage model r st2) as (st3 & -> & _ & L3).
    eexists _, _. split; [reflexivity|]. lia.
  - destruct e as [h| | |]; try (eexists _, _; split; [reflexivity|lia]).
    destruct (handleRateLimit w max h attempt model st2) as [res st3] eqn:Hh.
    destruct (handleRateLimit_frame _ _ _ _ _ _ _ Hh)
      as (_ & L3 & _ & _ & [[_ ->]|[? [d ->]]]).
    + eexists _, _. split; [reflexivity|]. lia.
    + destruct (IH fuel (attempt + 1) (snd (sleep d st3)))
        as (res & st' & -> & L'); [lia|lia|].
      eexists _, _. split; [reflexivity|]. simpl in L'. lia.
Qed.

(** X9: whatever the SDK calls return and whatever the cache holds, the
    request loop of [generateObject] settles within [maxRetries + 1]
    iterations, and it never makes more than [maxRetries + 1] calls of the
    SDK's [generateObject] that the cache does not answer for one
    request. *)
Theorem request_settles_within_ceiling fuel cacheEnabled max (o : Options) st :
  (Z.to_nat max < fuel)%nat ->
  exists res st',
    generateObject w fuel cacheEnabled max o st = Some (res, st')
    /\ (liveCalls st' <= liveCalls st + Z.to_nat max + 1)%nat.
Proof.
  intros Hfuel. unfold generateObject.
  apply requestLoop_settles; [f_equal; lia|done].
Qed.

Lemma requestLoop_cached_requests cacheEnabled max model key estIn estOut :
  forall fuel attempt st res st',
    requestLoop w fuel cacheEnabled max model key estIn estOut attempt st
    = Some (res, st') ->
    cachedRequests (usage st') = cachedRequests (usage st).
Proof.
  induction fuel as [|fuel IH]; intros attempt st res st' Hrun; [done|].
  rewrite requestLoop_unfold in Hrun.
  destruct (preemptiveThrottle_usage model estIn estOut st)
    as (st1 & E1 & U1 & _). rewrite E1 in Hrun.
  assert (C1 : cachedRequests (usage st1) = cachedRequests (usage st)).
  { by destruct U1 as [->| ->]. }
  destruct (callModel w cacheEnabled key st1) as [[r|e] st2] eqn:Hcall;
    destruct (callModel_frame _ _ _ _ _ Hcall) as (U2 & _).
  - destruct (recordSuccess_usage model r st2) as (st3 & E3 & U3 & _).
    rewrite E3 in Hrun. simplify_eq. rewrite U3, <- C1, <- U2.
    destruct (resultUsage r); [|done].
    unfold updateUsage. by destruct (PRICING !! model).
  - destruct e as [h| | |]; simplify_eq; try congruence.
    destruct (handleRateLimit w max h attempt model st2) as [res3 st3] eqn:Hh.
    destruct (handleRateLimit_frame _ _ _ _ _ _ _ Hh) as (U3 & _).
    assert (C3 : cachedRequests (usage st3) = cachedRequests (usage st)).
    { rewrite U3. simpl. congruence. }
    destruct res3 as [d|e3]; [|simplify_eq; done].
    apply IH in Hrun. simpl in Hrun. congruence.
Qed.

(** X10: [generateObject] never books a request as cached: however a run
    ends, the ledger's count of cached requests is what it was before. *)
Theorem cached_requests_never_counted fuel cacheEnabled max (o : Options) st
    res st' :
  generateObject w fuel cacheEnabled max o st = Some (res, st') ->
  cachedRequests (usage st') = cachedRequests (usage st).
Proof. apply requestLoop_cached_requests. Qed.

(** X11: a request answered from the cache whose cached result carries
    token usage is booked like a live call: the live-request count grows by
    one and the cached prompt and completion tokens are added to the
    totals again. *)
Theorem cache_hit_booked_as_live fuel max (o : Options) st r u :
  cachedAs (callParams o) r st ->
  resultUsage r = Some u ->
  exists st',
    generateObject w (S fuel) true max o st = Some (Ok (object r), st')
    /\ liveRequests (usage st') = liveRequests (usage st) + 1
    /\ promptTokens (usage st') = promptTokens (usage st) + usagePromptTokens u
    /\ completionTokens (usage st')
       = completionTokens (usage st) + usageCompletionTokens u.
Proof.
  intros Hhit Hu. unfold generateObject. rewrite requestLoop_unfold.
  destruct (preemptiveThrottle_usage (modelNameOf o) (estimatedInput o)
              (estimatedOutput o) st) as (st1 & -> & U1 & _ & S1).
  rewrite (callModel_hit w _ r st1) by (by eapply cachedAs_store).
  destruct (recordSuccess_usage (modelNameOf o) r st1) as (st3 & -> & U3 & _).
  exists st3. split; [done|]. rewrite U3, Hu.
  destruct (modelName_priced o) as [pr Hpr].
  unfold updateUsage. rewrite Hpr. simpl.
  destruct U1 as [->| ->]; simpl; done.
Qed.

Lemma callModel_other_failure cacheEnabled key st message :
  servedLive cacheEnabled key st ->
  replyAt w (liveCalls st) = OtherFailure message ->
  exists st2,
    callModel w cacheEnabled key st = (Err (ApiFailure message), st2)
    /\ liveCalls st2 = S (liveCalls st)
    /\ store st2 = store st
    /\ usage st2 = usage st
    /\ sleeps st2 = sleeps st.
Proof.
  intros Hlive Hreply. unfold callModel.
  assert (Hgen : exists st2,
             doGenerate w st = (Err (ApiFailure message), st2)
             /\ liveCalls st2 = S (liveCalls st)
             /\ store st2 = store st /\ usage st2 = usage st
             /\ sleeps st2 = sleeps st).
  { unfold doGenerate. rewrite Hreply. eauto 10. }
  destruct cacheEnabled; [|done].
  destruct Hlive as [?|[Hr Hmiss]]; [done|].
  destruct Hgen as (st2 & Hg & ?).
  exists st2. split; [|done].
  unfold wrapGenerate, bind, cacheGet. rewrite Hr, Hmiss. simpl.
  by rewrite Hg.
Qed.

(** X12: an SDK call that fails with anything but a rate-limit rejection
    is not retried: [generateObject] ends with that error after this one
    SDK call, the retry counter is unchanged, and the retry controller
    takes no sleep. *)
Theorem other_failure_propagates_immediately fuel cacheEnabled max
    (o : Options) st message :
  servedLive cacheEnabled (callParams o) st ->
  replyAt w (liveCalls st) = OtherFailure message ->
  exists st1 st',
    preemptiveThrottle w (modelNameOf o) (estimatedInput o) (estimatedOutput o) st
    = (Ok tt, st1)
    /\ generateObject w (S fuel) cacheEnabled max o st
       = Some (Err (ApiFailure message), st')
    /\ liveCalls st' = S (liveCalls st)
    /\ rateLimitRetries (usage st') = rateLimitRetries (usage st)
    /\ sleeps st' = sleeps st1.
Proof.
  intros Hlive Hreply. unfold generateObject. rewrite requestLoop_unfold.
  destruct (preemptiveThrottle_frame w (modelNameOf o) (estimatedInput o)
              (estimatedOutput o) st) as (st1 & E1 & L1 & S1 & R1).
  rewrite E1. rewrite <- L1 in Hreply.
  destruct (callModel_other_failure cacheEnabled (callParams o) st1 message
              (servedLive_store _ _ _ _ S1 Hlive) Hreply)
    as (st2 & -> & L2 & S2 & U2 & Z2).
  exists st1, st2. repeat split; congruence.
Qed.

End Loop.

Lemma cached_requests_never_counted_witness :
  exists res st',
    generateObject (rt := decimalRuntime) stillWorld 1 true 5 sampleRequest
      (stateWith (initialBudgets 1000 1001)
         (storeWith "k1" (meteredResult "cached" 10 5)))
    = Some (res, st')
    /\ cachedRequests (usage st') = 0.
Proof.
  destruct (generateObject (rt := decimalRuntime) stillWorld 1 true 5
              sampleRequest
              (stateWith (initialBudgets 1000 1001)
                 (storeWith "k1" (meteredResult "cached" 10 5))))
    as [[res st']|] eqn:Hrun; [|vm_compute in Hrun; discriminate Hrun].
  exists res, st'. split; [reflexivity|].
  apply (cached_requests_never_counted (rt := decimalRuntime) stillWorld 1 true
           5 sampleRequest _ res st' Hrun).
Defined.

Lemma cache_hit_booked_as_live_witness :
  exists st',
    generateObject (rt := decimalRuntime) stillWorld 1 true 5 sampleRequest
      (stateWith (initialBudgets 1000 1001)
         (storeWith "k1" (meteredResult "cached" 10 5)))
    = Some (Ok "cached"%string, st')
    /\ liveRequests (usage st') = 1.
Proof.
  destruct (cache_hit_booked_as_live (rt := decimalRuntime) stillWorld 0 5
              sampleRequest
              (stateWith (initialBudgets 1000 1001)
                 (storeWith "k1" (meteredResult "cached" 10 5)))
              (meteredResult "cached" 10 5)
              {| usagePromptTokens := 10; usageCompletionTokens := 5 |})
    as (st' & H1 & H2 & _).
  - split; reflexivity.
  - reflexivity.
  - exists st'. split; [exact H1 | exact H2].
Defined.

Lemma request_settles_within_ceiling_witness :
  exists res st',
    generateObject (rt := decimalRuntime) throttlingWorld 6 false 5
      sampleRequest (stateWith (initialBudgets 1000 1001) emptyStore)
    = Some (res, st')
    /\ (liveCalls st' <= 6)%nat.
Proof.
  apply (request_settles_within_ceiling (rt := decimalRuntime) throttlingWorld
           6 false 5 sampleRequest
           (stateWith (initialBudgets 1000 1001) emptyStore)).
  simpl. lia.
Defined.

Lemma other_failure_propagates_immediately_witness :
  exists st',
    generateObject (rt := decimalRuntime) stillWorld 1 true 5 sampleRequest
      (stateWith (initialBudgets 1000 1001) emptyStore)
    = Some (Err (ApiFailure "unavailable"), st')
    /\ liveCalls st' = 1%nat.
Proof.
  destruct (other_failure_propagates_immediately (rt := decimalRuntime)
              stillWorld 0 true 5 sampleRequest
              (stateWith (initialBudgets 1000 1001) emptyStore) "unavailable")
    as (st1 & st' & _ & H1 & H2 & _).
  - right. split; reflexivity.
  - reflexivity.
  - exists st'. split; [exact H1 | exact H2].
Defined.

End LoopMore.

(** ** Retry controller: recovery, hints, bounds *)

Module RetryMore.
Import Budget Usage Integration IntegrationVocabulary IntegrationMore
  IntegrationFacts LoopMore.

Section Retry.
Context {rt : JsRuntime} (w : World).

Lemma callModel_reply cacheEnabled key st r :
  servedLive cacheEnabled key st ->
  writeFault (store st) = None ->
  replyAt w (liveCalls st) = Reply r ->
  exists st2,
    callModel w cacheEnabled key st = (Ok r, st2)
    /\ liveCalls st2 = S (liveCalls st)
    /\ usage st2 = usage st
    /\ (cacheEnabled = true -> value <$> rows (store st2) !! key = Some r).
Proof.
  intros Hlive Hw Hreply. unfold callModel. destruct cacheEnabled.
  - destruct Hlive as [?|[Hr Hmiss]]; [done|].
    unfold wrapGenerate, bind, cacheGet, cacheSet, bind, doGenerate, dateNow,
      setStore.
    rewrite Hr, Hmiss. simpl. rewrite Hreply. simpl. rewrite Hw. simpl.
    eexists. split; [reflexivity|]. simpl.
    repeat split. intros _. by rewrite lookup_insert_eq.
  - unfold doGenerate. rewrite Hreply. eexists. split; [reflexivity|].
    simpl. repeat split. done.
Qed.

Lemma requestLoop_recovers cacheEnabled max model key estIn estOut r :
  forall (k : nat) fuel attempt st,
    attempt + Z.of_nat k <= max ->
    (k < fuel)%nat ->
    servedLive cacheEnabled key st ->
    writeFault (store st) = None ->
    (forall i, (i < k)%nat ->
               exists h, replyAt w (liveCalls st + i) = RateLimitReply h) ->
    replyAt w (liveCalls st + k) = Reply r ->
    exists st',
      requestLoop w fuel cacheEnabled max model key estIn estOut attempt st
      = Some (Ok (object r), st')
      /\ liveCalls st' = (liveCalls st + k + 1)%nat
      /\ rateLimitRetries (usage st') = rateLimitRetries (usage st) + Z.of_nat k
      /\ (length (sleeps st) + k <= length (sleeps st'))%nat
      /\ (cacheEnabled = true -> value <$> rows (store st') !! key = Some r).
Proof.
  induction k as [|k IH];
    intros fuel attempt st Hmax Hfuel Hlive Hw Hreplies Hreply;
    (destruct fuel as [|fuel]; [lia|]); rewrite requestLoop_unfold;
    destruct (preemptiveThrottle_effect w model estIn estOut st)
      as (st1 & -> & L1 & S1 & R1 & _ & _ & Z1);
    apply (f_equal length) in Z1; rewrite length_app in Z1.
  - rewrite Nat.add_0_r, <- L1 in Hreply. rewrite <- S1 in Hw.
    destruct (callModel_reply cacheEnabled key st1 r
                (servedLive_store _ _ _ _ S1 Hlive) Hw Hreply)
      as (st2 & Hcall & L2 & U2 & C2).
    destruct (callModel_frame w _ _ _ _ _ Hcall) as (_ & _ & Z2 & _).
    rewrite Hcall.
    destruct (recordSuccess_frame w model r st2)
      as (st3 & -> & L3 & S3 & R3 & _ & Z3 & _).
    exists st3. split; [done|]. split; [lia|].
    split; [rewrite R3, U2, R1; lia|].
    split; [rewrite Z3, Z2; lia|].
    intros Hc. rewrite S3. by apply C2.
  - destruct (Hreplies 0%nat) as [h Hh]; [lia|].
    rewrite Nat.add_0_r, <- L1 in Hh.
    destruct (callModel_rate_limited w cacheEnabled key st1 h
                (servedLive_store _ _ _ _ S1 Hlive) Hh)
      as (st2 & Hcall & L2 & S2 & U2).
    destruct (callModel_frame w _ _ _ _ _ Hcall) as (_ & _ & Z2 & _).
    rewrite Hcall.
    destruct (handleRateLimit_retry w max h attempt model st2)
      as (d & st3 & Hhandle & L3 & S3 & R3 & _); [lia|].
    destruct (handleRateLimit_frame w _ _ _ _ _ _ _ Hhandle)
      as (_ & _ & _ & Z3 & _).
    rewrite Hhandle.
    destruct (IH fuel (attempt + 1) (snd (sleep d st3)))
      as (st' & Hloop & L' & R' & Z' & C').
    + lia.
    + lia.
    + simpl. apply (servedLive_store _ _ st); [|done]. simpl. congruence.
    + simpl. congruence.
    + intros i Hi. simpl. rewrite L3, L2, L1.
      destruct (Hreplies (S i)) as [h' Hh']; [lia|].
      exists h'. rewrite <- Hh'. f_equal. lia.
    + simpl. rewrite L3, L2, L1. rewrite <- Hreply. f_equal. lia.
    + exists st'. split; [done|].
      simpl in L', R', Z'. rewrite length_app, Z3, Z2 in Z'. simpl in Z'.
      split; [lia|]. split; [rewrite R', R3, U2, R1; lia|].
      split; [lia|done].
Qed.

(** X13: when the first [k] SDK calls of a request end in a rate-limit
    rejection (the SDK's own retry included), with [k] within the retry
    ceiling, and the next SDK call returns a result, [generateObject]
    resolves to that result after [k + 1] SDK calls, [k] counted retries
    and at least [k] sleeps; with the cache enabled and a working store the
    result is then stored under the request's key. *)
Theorem request_recovers_after_rejections (k : nat) fuel cacheEnabled max
    (o : Options) st r :
  Z.of_nat k <= max ->
  (k < fuel)%nat ->
  servedLive cacheEnabled (callParams o) st ->
  writeFault (store st) = None ->
  (forall i, (i < k)%nat ->
             exists h, replyAt w (liveCalls st + i) = RateLimitReply h) ->
  replyAt w (liveCalls st + k) = Reply r ->
  exists st',
    generateObject w fuel cacheEnabled max o st = Some (Ok (object r), st')
    /\ liveCalls st' = (liveCalls st + k + 1)%nat
    /\ rateLimitRetries (usage st') = rateLimitRetries (usage st) + Z.of_nat k
    /\ (length (sleeps st) + k <= length (sleeps st'))%nat
    /\ (cacheEnabled = true ->
        value <$> rows (store st') !! callParams o = Some r).
Proof.
  intros. unfold generateObject. by apply requestLoop_recovers.
Qed.

(** X14: the headers of a rate-limit rejection reach the budget tracker
    only together with a retry hint. Below the ceiling, a rejection with a
    [retry-after] header leaves the model's budget initialized; one without
    it leaves all budgets exactly as they were, whatever limit headers it
    carries. *)
Theorem rejection_headers_need_hint max headers attempt model st :
  attempt < max ->
  exists d st',
    handleRateLimit w max headers attempt model st = (Ok d, st')
    /\ match retryHint headers with
       | Some _ =>
           BudgetVocabulary.budgetInitialized (rateLimitBudgets st') model = true
       | None => rateLimitBudgets st' = rateLimitBudgets st
       end.
Proof.
  intros H. unfold handleRateLimit, bind. simpl.
  destruct (Z.leb_spec max attempt); [lia|].
  destruct headers as [h|]; simpl; [|by eexists _, _].
  destruct (truthy (h !! "retry-after")) eqn:Ht; simpl; [|by eexists _, _].
  unfold truthy in Ht. destruct (h !! "retry-after") as [hint|] eqn:Hh; [|done].
  destruct (rateLimitBudgets st !! model); simpl;
    (eexists _, _; split; [reflexivity|]; simpl;
     unfold BudgetVocabulary.budgetInitialized, updateRateLimitBudgets;
     by rewrite lookup_insert_eq).
Qed.

End Retry.

Lemma pow2_ge_1 a : 0 <= a -> 1 <= 2 ^ a.
Proof. intros H. pose proof (Z.pow_pos_nonneg 2 a). lia. Qed.

Lemma pow2_ge_64 a : 6 <= a -> 64 <= 2 ^ a.
Proof.
  intros H. change 64 with (2 ^ 6). apply Z.pow_le_mono_r; lia.
Qed.

Lemma inject_Z_scaled_le a b :
  a <= b -> (inject_Z (a * 1000) <= inject_Z (b * 1000))%Q.
Proof. intros H. rewrite <- Zle_Qle. lia. Qed.

(** X15: for a non-negative attempt number and a random draw in [0, 1),
    the exponential backoff lies between 1 and 60 seconds, does not
    decrease when the attempt number grows, and is exactly 60 seconds from
    attempt 6 on. *)
Theorem backoff_seconds_bounded attempt attempt' random :
  0 <= attempt -> attempt <= attempt' ->
  (0 <= random)%Q -> (random < 1)%Q ->
  (1 <= backoffSeconds attempt random)%Q
  /\ (backoffSeconds attempt random <= 60)%Q
  /\ (backoffSeconds attempt random <= backoffSeconds attempt' random)%Q
  /\ (6 <= attempt -> (backoffSeconds attempt random == 60)%Q).
Proof.
  intros H0 Hle Hr0 Hr1. unfold backoffSeconds.
  pose proof (inject_Z_scaled_le 1 (2 ^ attempt) (pow2_ge_1 attempt H0)) as P1.
  assert (Hpow : 2 ^ attempt <= 2 ^ attempt')
    by (apply Z.pow_le_mono_r; lia).
  pose proof (inject_Z_scaled_le _ _ Hpow) as P2.
  change (inject_Z (1 * 1000)) with 1000%Q in P1.
  set (x := inject_Z (2 ^ attempt * 1000)) in *.
  set (y := inject_Z (2 ^ attempt' * 1000)) in *.
  assert (X1 : (1 <= (x + random * 1000) / 1000)%Q)
    by (apply Qle_shift_div_l; lra).
  assert (XY : ((x + random * 1000) / 1000 <= (y + random * 1000) / 1000)%Q).
  { unfold Qdiv. apply Qmult_le_compat_r; [lra|].
    apply Qinv_le_0_compat. lra. }
  split; [apply Q.min_glb; lra|].
  split; [apply Q.le_min_l|].
  split; [apply Q.min_le_compat_l, XY|].
  intros H6.
  pose proof (inject_Z_scaled_le 64 (2 ^ attempt) (pow2_ge_64 attempt H6)) as P6.
  change (inject_Z (64 * 1000)) with 64000%Q in P6. fold x in P6.
  apply Q.min_l. apply Qle_shift_div_l; lra.
Qed.

Lemma backoff_seconds_bounded_witness :
  (1 <= backoffSeconds 2 (1 # 2))%Q
  /\ (backoffSeconds 2 (1 # 2) <= backoffSeconds 7 (1 # 2))%Q.
Proof.
  destruct (backoff_seconds_bounded 2 7 (1 # 2)) as (H1 & _ & H3 & _).
  - lia.
  - lia.
  - lra.
  - lra.
  - split; [exact H1 | exact H3].
Defined.

Lemma request_recovers_after_rejections_witness :
  exists st',
    generateObject (rt := decimalRuntime) recoveringWorld 3 true 5 sampleRequest
      (stateWith (initialBudgets 1000 1001) emptyStore)
    = Some (Ok "late"%string, st')
    /\ liveCalls st' = 3%nat
    /\ rateLimitRetries (usage st') = 2.
Proof.
  destruct (request_recovers_after_rejections (rt := decimalRuntime)
              recoveringWorld 2 3 true 5 sampleRequest
              (stateWith (initialBudgets 1000 1001) emptyStore)
              (meteredResult "late" 10 5))
    as (st' & H1 & H2 & H3 & _).
  - lia.
  - lia.
  - right. split; reflexivity.
  - reflexivity.
  - intros i Hi. exists None. simpl.
    destruct i as [|[|i]]; [reflexivity|reflexivity|lia].
  - reflexivity.
  - exists st'. split; [exact H1|]. split; [exact H2 | exact H3].
Defined.

Lemma rejection_headers_need_hint_witness :
  exists d st',
    handleRateLimit (rt := decimalRuntime) stillWorld 5
      (Some (<["retry-after" := "7"]> ∅)) 0 "claude-3-5-haiku-latest"
      (stateWith (initialBudgets 1000 1001) emptyStore)
    = (Ok d, st')
    /\ BudgetVocabulary.budgetInitialized (rateLimitBudgets st')
         "claude-3-5-haiku-latest" = true.
Proof.
  destruct (rejection_headers_need_hint (rt := decimalRuntime) stillWorld 5
              (Some (<["retry-after" := "7"]> ∅)) 0 "claude-3-5-haiku-latest"
              (stateWith (initialBudgets 1000 1001) emptyStore))
    as (d & st' & H1 & H2); [lia|].
  exists d, st'. split; [exact H1 | exact H2].
Defined.

End RetryMore.

(** ** Token estimates, CLI configuration and the response cache *)

Module CacheMore.
Import Budget Usage Integration IntegrationVocabulary IntegrationMore
  IntegrationFacts LoopMore.

Lemma ceiling_bounds (n d : Z) :
  0 < d ->
  n <= d * Qceiling (inject_Z n / inject_Z d) < n + d.
Proof.
  intros Hd.
  pose proof (Qle_ceiling (inject_Z n / inject_Z d)) as Hle.
  pose proof (Qceiling_lt (inject_Z n / inject_Z d)) as Hlt.
  set (c := Qceiling (inject_Z n / inject_Z d)) in *.
  assert (Hd' : (0 < inject_Z d)%Q)
    by (change (inject_Z 0 < inject_Z d)%Q; rewrite <- Zlt_Qlt; lia).
  assert (Hn : (inject_Z n / inject_Z d * inject_Z d == inject_Z n)%Q)
    by (field; lra).
  apply (Qmult_le_r _ _ (inject_Z d)) in Hle; [|done].
  apply (Qmult_lt_r _ _ (inject_Z d)) in Hlt; [|done].
  rewrite Hn in Hle, Hlt.
  rewrite <- inject_Z_mult in Hle, Hlt.
  rewrite <- Zle_Qle in Hle. rewrite <- Zlt_Qlt in Hlt. lia.
Qed.

(** X16: the estimates handed to the throttle. An explicit non-zero input
    estimate [e] becomes [ceil(1.2 e)]; without an input estimate (or with
    an estimate of 0), without messages and without a prompt the input
    estimate is 1200. The output estimate is the explicit one unless it is
    absent or 0, in which case it is 500. *)
Theorem estimates_are_buffered (o : Options) :
  (forall e,
     estimatedInputTokens o = Some e -> e <> 0 ->
     12 * e <= 10 * estimatedInput o < 12 * e + 10)
  /\ (numTruthy (estimatedInputTokens o) = false ->
      messages o = None -> truthy (prompt o) = false ->
      estimatedInput o = 1200)
  /\ (forall e,
        estimatedOutputTokens o = Some e -> e <> 0 -> estimatedOutput o = e)
  /\ (numTruthy (estimatedOutputTokens o) = false -> estimatedOutput o = 500).
Proof.
  unfold estimatedInput, estimatedOutput, numOr, numTruthy.
  split; [|split; [|split]].
  - intros e He Hne. rewrite He. simpl.
    destruct (Z.eqb_spec e 0); [done|]. simpl.
    assert (E : (inject_Z e * (12 # 10) == inject_Z (12 * e) / inject_Z 10)%Q).
    { rewrite inject_Z_mult. field. }
    rewrite (Qceiling_comp _ _ E).
    apply (ceiling_bounds (12 * e) 10). lia.
  - intros Hn Hm Hp. rewrite Hn, Hm, Hp. reflexivity.
  - intros e -> Hne. by destruct (Z.eqb_spec e 0).
  - destruct (estimatedOutputTokens o) as [e|]; [|done].
    by destruct (e =? 0).
Qed.

(** On the message path the estimate follows the doubles of the code: two
    contents of 17 and 18 characters give 15, although [35 / 3 * 1.2] is
    14; a content outside ASCII counts by its UTF-16 code units. *)
Example estimate_in_doubles :
  estimatedInput
    {| useSmart := false; estimatedInputTokens := None;
       estimatedOutputTokens := None;
       messages := Some ["List the endpoint"; "and its parameters"]%string;
       prompt := None; callParams := "" |}
  = 15
  /\ jsLength "déjà vu" = 7.
Proof. split; vm_compute; reflexivity. Qed.

Section Cache.
Context {rt : JsRuntime} (w : World).

(** X17: the retry ceiling the CLI configures is a number exactly when
    [opts.concurrency] is one, and [NaN] otherwise. When it is a number it
    lies between 5 and 10, and a request then settles within 11 iterations
    of the loop, after at most 11 calls of the SDK's [generateObject]. *)
Theorem cli_request_bounded (concurrency : option Z) cacheEnabled
    (o : Options) st :
  match cliMaxRateLimitRetries concurrency with
  | Some max =>
      is_Some concurrency
      /\ 5 <= max <= 10
      /\ exists res st',
           generateObject w 11 cacheEnabled max o st = Some (res, st')
           /\ (liveCalls st' <= liveCalls st + 11)%nat
  | None => concurrency = None
  end.
Proof.
  destruct concurrency as [c|]; [|done]. cbn.
  set (max := 5 `max` (10 `min` (c * 2))).
  assert (Hb : 5 <= max <= 10) by (unfold max; lia).
  split; [done|]. split; [done|]. unfold generateObject.
  destruct (requestLoop_settles w cacheEnabled max (modelNameOf o)
              (callParams o) (estimatedInput o) (estimatedOutput o)
              (Z.to_nat max) 11 0 st)
    as (res & st' & Hrun & Hcalls); [f_equal; lia|lia|].
  exists res, st'. split; [done|lia].
Qed.

Lemma cacheSet_ok key v st :
  writeFault (store st) = None ->
  exists st1,
    cacheSet w key v st = (Ok tt, st1)
    /\ rows (store st1)
       = <[key := {| value := v; timestamp := nowAt w (clockReads st) |}]>
           (rows (store st))
    /\ readFault (store st1) = readFault (store st)
    /\ writeFault (store st1) = writeFault (store st).
Proof.
  intros Hw. unfold cacheSet, bind, dateNow, setStore. simpl. rewrite Hw.
  by eexists.
Qed.

Lemma cacheGet_ok key st :
  readFault (store st) = None ->
  cacheGet key st = (Ok (value <$> rows (store st) !! key), st).
Proof. intros Hr. unfold cacheGet. by rewrite Hr. Qed.

(** X18: on a working store, a key that was never set misses; after
    [set(key, v)] a [get(key)] returns [v]; a later [set] of the same key
    replaces the value; and the entries of all other keys are as they
    were. *)
Theorem cache_round_trip key v v2 st :
  readFault (store st) = None ->
  writeFault (store st) = None ->
  (rows (store st) !! key = None -> fst (cacheGet key st) = Ok None)
  /\ exists st1 st2,
       cacheSet w key v st = (Ok tt, st1)
       /\ fst (cacheGet key st1) = Ok (Some v)
       /\ cacheSet w key v2 st1 = (Ok tt, st2)
       /\ fst (cacheGet key st2) = Ok (Some v2)
       /\ forall other, other <> key ->
            fst (cacheGet other st2) = fst (cacheGet other st).
Proof.
  intros Hr Hw. split.
  - intros Hmiss. by rewrite cacheGet_ok, Hmiss.
  - destruct (cacheSet_ok key v st Hw) as (st1 & E1 & Rows1 & Hr1 & Hw1).
    destruct (cacheSet_ok key v2 st1) as (st2 & E2 & Rows2 & Hr2 & Hw2);
      [congruence|].
    exists st1, st2.
    rewrite !cacheGet_ok by congruence.
    rewrite Rows2, Rows1. simpl.
    split; [done|]. split; [by rewrite lookup_insert_eq|].
    split; [done|]. split; [by rewrite lookup_insert_eq|].
    intros other Hne. rewrite !cacheGet_ok by congruence. simpl.
    by rewrite Rows2, Rows1, !lookup_insert_ne.
Qed.

(** X19: on a working store, [clear] leaves no entry behind: every key
    misses afterwards. *)
Theorem cache_clear_empties st :
  readFault (store st) = None ->
  writeFault (store st) = None ->
  exists st1,
    cacheClear st = (Ok tt, st1)
    /\ forall key, fst (cacheGet key st1) = Ok None.
Proof.
  intros Hr Hw. unfold cacheClear, setStore. rewrite Hw.
  eexists. split; [reflexivity|]. intros key. unfold cacheGet. simpl.
  by rewrite Hr, lookup_empty.
Qed.

(** X20: after a miss that the service answered and a working store
    recorded, the same request is answered from the cache: the second
    [wrapGenerate] returns the same result without a call to the service
    and leaves the state as it is, whatever the service would answer
    now. *)
Theorem wrapGenerate_deduplicates key st r :
  readFault (store st) = None ->
  rows (store st) !! key = None ->
  writeFault (store st) = None ->
  replyAt w (liveCalls st) = Reply r ->
  exists st1,
    wrapGenerate w key st = (Ok r, st1)
    /\ liveCalls st1 = S (liveCalls st)
    /\ wrapGenerate w key st1 = (Ok r, st1).
Proof.
  intros Hr Hmiss Hw Hreply.
  unfold wrapGenerate, bind, cacheGet, cacheSet, bind, doGenerate, dateNow,
    setStore.
  rewrite Hr, Hmiss. simpl. rewrite Hreply. simpl. rewrite Hw. simpl.
  eexists. split; [reflexivity|]. simpl. split; [done|].
  by rewrite Hr, lookup_insert_eq.
Qed.

(** X21: a call that the service rejects is not cached: [wrapGenerate]
    passes the rejection on, the table is unchanged, and the next attempt
    for the same key goes to the service again. *)
Theorem wrapGenerate_never_caches_failures key st :
  readFault (store st) = None ->
  rows (store st) !! key = None ->
  (forall r, replyAt w (liveCalls st) <> Reply r) ->
  exists e st1,
    wrapGenerate w key st = (Err e, st1)
    /\ store st1 = store st
    /\ liveCalls st1 = S (liveCalls st)
    /\ forall res st2,
         wrapGenerate w key st1 = (res, st2) ->
         liveCalls st2 = S (liveCalls st1).
Proof.
  intros Hr Hmiss Hrej.
  unfold wrapGenerate, bind, cacheGet, cacheSet, bind, doGenerate, dateNow,
    setStore, ret.
  rewrite Hr, Hmiss. simpl.
  destruct (replyAt w (liveCalls st)) as [r|h|m] eqn:Hreply;
    [by destruct (Hrej r)| |];
    (eexists _, _; split; [reflexivity|]; simpl; rewrite Hr, Hmiss;
     split; [done|]; split; [done|]; simpl;
     intros res st2;
     destruct (replyAt w (S (liveCalls st))); simpl;
     try destruct (writeFault (store st)); simpl;
     intros; simplify_eq; done).
Qed.

End Cache.

Lemma cache_round_trip_witness :
  exists st1,
    cacheSet stillWorld "k1" (plainResult "a") (stateWith ∅ emptyStore)
    = (Ok tt, st1)
    /\ fst (cacheGet "k1" st1) = Ok (Some (plainResult "a")).
Proof.
  destruct (cache_round_trip stillWorld "k1" (plainResult "a")
              (plainResult "b") (stateWith ∅ emptyStore))
    as (_ & st1 & st2 & H1 & H2 & _).
  - reflexivity.
  - reflexivity.
  - exists st1. split; [exact H1 | exact H2].
Defined.

Lemma cache_clear_empties_witness :
  exists st1,
    cacheClear (stateWith ∅ (storeWith "k1" (plainResult "a"))) = (Ok tt, st1)
    /\ fst (cacheGet "k1" st1) = Ok None.
Proof.
  destruct (cache_clear_empties (stateWith ∅ (storeWith "k1" (plainResult "a"))))
    as (st1 & H1 & H2).
  - reflexivity.
  - reflexivity.
  - exists st1. split; [exact H1 | exact (H2 "k1"%string)].
Defined.

Lemma wrapGenerate_deduplicates_witness :
  exists st1,
    wrapGenerate answeringWorld "k1" (stateWith ∅ emptyStore)
    = (Ok (plainResult "live"), st1)
    /\ liveCalls st1 = 1%nat
    /\ wrapGenerate answeringWorld "k1" st1 = (Ok (plainResult "live"), st1).
Proof.
  apply (wrapGenerate_deduplicates answeringWorld "k1"
           (stateWith ∅ emptyStore) (plainResult "live")); reflexivity.
Defined.

Lemma wrapGenerate_never_caches_failures_witness :
  exists e st1,
    wrapGenerate throttlingWorld "k1" (stateWith ∅ emptyStore) = (Err e, st1)
    /\ store st1 = emptyStore.
Proof.
  destruct (wrapGenerate_never_caches_failures throttlingWorld "k1"
              (stateWith ∅ emptyStore)) as (e & st1 & H1 & H2 & _).
  - reflexivity.
  - reflexivity.
  - intros r. discriminate.
  - exists e, st1. split; [exact H1 | exact H2].
Defined.

End CacheMore.

(** ** Dispatcher: result order, degenerate limits, initial claims *)

Module DispatcherMore.
Import Dispatcher DispatcherVocabulary DispatcherOrder DispatcherFacts.

Section More.
Context {Endpoint : Type} {eqEndpoint : EqDecision Endpoint}.
Variable endpoints : list Endpoint.

Lemma resume_results w idx res (p : Pool Endpoint) :
  results (resume endpoints w idx res p)
  = results p ++ match res with Some e => [e] | None => [] end.
Proof.
  unfold resume, claimNext, finishTask. simpl.
  destruct (queue p); destruct res; simpl; by rewrite ?app_nil_r.
Qed.

Lemma run_results sched :
  forall (m m' : Machine Endpoint),
    runSchedule endpoints sched m = Some m' ->
    results (poolOf m') = results (poolOf m) ++ omap resolvedOf sched.
Proof.
  induction sched as [|[w o] sched IH]; intros m m' Hrun; simpl in Hrun.
  - simplify_eq. by rewrite app_nil_r.
  - destruct m as [p|]; [|done].
    destruct (settle endpoints w o p) as [m1|] eqn:Hs; [|done].
    rewrite (IH _ _ Hrun).
    destruct (settle_cases _ _ _ _ _ Hs) as (idx & ep & Hw & Hm).
    destruct o; subst m1; simpl; unfold resolvedOf at 2; simpl;
      rewrite ?resume_results, <- ?app_assoc; done.
Qed.

(** X22: the list that [processEndpointsWithConcurrency] returns is in
    completion order, not in submission order: at every instant [results]
    holds exactly the enhanced endpoints of the tasks that resolved so far,
    in the order in which they resolved; a rejected task leaves no
    entry. *)
Theorem results_in_completion_order concurrency sched (m : Machine Endpoint) :
  runSchedule endpoints sched (Running (start endpoints concurrency)) = Some m ->
  results (poolOf m) = omap resolvedOf sched.
Proof.
  intros Hrun. rewrite (run_results _ _ _ Hrun). simpl.
  destruct (start_invariant endpoints concurrency) as [[_ _ _ _ _ Hres] Hc].
  rewrite Hc in Hres.
  by destruct (results (start endpoints concurrency)); [|simpl in Hres; lia].
Qed.

(** X23: with a concurrency limit of zero or less no coroutine is
    started: [Promise.all] resolves at once with an empty result list while
    every endpoint is still queued, and no task can ever settle. *)
Theorem nonpositive_concurrency_processes_nothing concurrency :
  concurrency <= 0 ->
  allReturned (start endpoints concurrency)
  /\ results (start endpoints concurrency) = []
  /\ completed (start endpoints concurrency) = 0%nat
  /\ queue (start endpoints concurrency) = endpoints
  /\ forall w o, settle endpoints w o (start endpoints concurrency) = None.
Proof.
  intros Hc. unfold start.
  replace (Z.to_nat (Z.min concurrency (Z.of_nat (length endpoints))))
    with 0%nat by lia.
  simpl. repeat split; try done. constructor.
Qed.

Lemma spawn_claims n :
  (n <= length endpoints)%nat ->
  let p := Nat.iter n (spawn endpoints) (emptyPool endpoints) in
  claims p = zip (seq 0 n) (take n endpoints)
  /\ queue p = drop n endpoints
  /\ length (workers p) = n.
Proof.
  induction n as [|n IH]; intros Hn; cbv zeta.
  - simpl. by rewrite drop_0.
  - destruct IH as (I1 & I2 & I3); [lia|].
    change (Nat.iter (S n) (spawn endpoints) (emptyPool endpoints))
      with (spawn endpoints (Nat.iter n (spawn endpoints) (emptyPool endpoints))).
    set (p := Nat.iter n (spawn endpoints) (emptyPool endpoints)) in *.
    destruct (lookup_lt_is_Some_2 endpoints n) as [e He]; [lia|].
    unfold spawn, claimNext. rewrite I2, (drop_S _ _ _ He).
    cbn [claims queue workers setWorkers].
    rewrite length_app, I1, I3.
    rewrite (take_S_r _ _ _ He), seq_S.
    rewrite zip_with_app by (by rewrite length_seq, length_take_le by lia).
    split; [done|]. split; [done|simpl; lia].
Qed.

(** X24: for a concurrency limit between 0 and the number of endpoints
    and beyond, the dispatch starts [min(concurrency, N)] coroutines, all
    of them busy: coroutine [i] has claimed endpoint [i], and the queue
    holds the remaining endpoints in their order. *)
Theorem initial_claims concurrency :
  0 <= concurrency ->
  let n := poolSizeFor endpoints concurrency in
  Z.of_nat n = Z.min concurrency (Z.of_nat (length endpoints))
  /\ claims (start endpoints concurrency) = zip (seq 0 n) (take n endpoints)
  /\ queue (start endpoints concurrency) = drop n endpoints
  /\ length (workers (start endpoints concurrency)) = n
  /\ inFlight (start endpoints concurrency) = n.
Proof.
  intros Hc n. subst n. unfold poolSizeFor, start.
  destruct (spawn_claims (Z.to_nat (Z.min concurrency (Z.of_nat (length endpoints)))))
    as (H1 & H2 & H3); [lia|].
  destruct (spawn_phase endpoints
              (Z.to_nat (Z.min concurrency (Z.of_nat (length endpoints)))))
    as (_ & _ & _ & H4 & _); [lia|].
  split; [lia|]. done.
Qed.

End More.

Lemma results_in_completion_order_witness :
  exists m,
    runSchedule fiveEndpoints fiveSettlements (Running (start fiveEndpoints 2))
    = Some m
    /\ results (poolOf m)
       = [enhanced "/a"; enhanced "/d"; enhanced "/c"; enhanced "/e"]%string.
Proof.
  destruct (runSchedule fiveEndpoints fiveSettlements
              (Running (start fiveEndpoints 2))) as [m|] eqn:Hrun;
    [|vm_compute in Hrun; discriminate Hrun].
  exists m. split; [reflexivity|].
  apply (results_in_completion_order fiveEndpoints 2 fiveSettlements m Hrun).
Defined.

Lemma nonpositive_concurrency_processes_nothing_witness :
  allReturned (start fiveEndpoints 0)
  /\ results (start fiveEndpoints 0) = []
  /\ queue (start fiveEndpoints 0) = fiveEndpoints.
Proof.
  destruct (nonpositive_concurrency_processes_nothing fiveEndpoints 0)
    as (H1 & H2 & _ & H4 & _); [lia|].
  split; [exact H1|]. split; [exact H2 | exact H4].
Defined.

Lemma initial_claims_witness :
  claims (start fiveEndpoints 2) = [(0%nat, "/a"); (1%nat, "/b")]%string
  /\ queue (start fiveEndpoints 2) = ["/c"; "/d"; "/e"]%string.
Proof.
  destruct (initial_claims fiveEndpoints 2) as (_ & H1 & H2 & _); [lia|].
  split; [exact H1 | exact H2].
Defined.

End DispatcherMore.

(** ** Dispatcher: the in-progress set *)

Module ProgressMore.
Import Dispatcher DispatcherVocabulary DispatcherProgress DispatcherFacts.

Section Progress.
Context {Endpoint : Type} {eqEndpoint : EqDecision Endpoint}.
Variable endpoints : list Endpoint.
Hypothesis distinct : NoDup endpoints.

Lemma indexOfFrom_middle (l1 l2 : list Endpoint) x i :
  x ∉ l1 ->
  indexOfFrom i (l1 ++ x :: l2) x = i + Z.of_nat (length l1).
Proof.
  revert i. induction l1 as [|y l1 IH]; intros i Hx; simpl.
  - case_decide; [lia|done].
  - apply not_elem_of_cons in Hx as [Hne Hx].
    case_decide; [congruence|]. rewrite IH by done. lia.
Qed.

Lemma next_index (claimed : list (nat * Endpoint)) next rest :
  map snd claimed ++ next :: rest = endpoints ->
  indexOf endpoints next = Z.of_nat (length claimed).
Proof.
  intros I1. unfold indexOf. rewrite <- I1.
  rewrite indexOfFrom_middle; [by rewrite length_map|].
  rewrite <- I1 in distinct. apply NoDup_app in distinct as (_ & Hdis & _).
  intros Hin. apply (Hdis _ Hin). left.
Qed.

Lemma awaited_split (ws : list (Worker Endpoint)) w wk wk' :
  ws !! w = Some wk ->
  awaitedIndices ws
  = awaitedIndices (take w ws) ++ option_list (workerIndex wk)
    ++ awaitedIndices (drop (S w) ws)
  /\ awaitedIndices (<[w := wk']> ws)
     = awaitedIndices (take w ws) ++ option_list (workerIndex wk')
       ++ awaitedIndices (drop (S w) ws).
Proof.
  intros Hw. destruct (workers_split ws w wk wk' Hw) as [E1 E2].
  unfold awaitedIndices. split.
  - rewrite E1 at 1. rewrite omap_app. simpl. by destruct (workerIndex wk).
  - rewrite E2, omap_app. simpl. by destruct (workerIndex wk').
Qed.

Lemma resume_exact poolSize w idx ep res (p : Pool Endpoint) :
  PoolInvariant endpoints poolSize p ->
  ExactProgress p ->
  workers p !! w = Some (Awaiting idx ep) ->
  ExactProgress (resume endpoints w idx res p).
Proof.
  intros [I1 _ _ _ _ _] [E1 E2 E3] Hw.
  unfold resume, claimNext, finishTask. simpl.
  destruct (queue p) as [|next rest] eqn:Hq; simpl.
  - destruct (awaited_split (workers p) w _ Returned Hw) as [S1 S2].
    simpl in S1, S2. rewrite S1 in E1, E2, E3.
    apply NoDup_app in E1 as (N1 & N2 & N3).
    apply NoDup_cons in N3 as [N3 N4].
    constructor; simpl; rewrite S2.
    + apply NoDup_app. split; [done|]. split; [|done].
      intros i Hi Hi'. apply (N2 i Hi). by right.
    + intros i Hi. apply E2. set_solver.
    + rewrite E3, !list_to_set_app_L. simpl.
      assert (idx ∉ awaitedIndices (take w (workers p))).
      { intros Hi. apply (N2 idx Hi). by left. }
      set_solver.
  - pose proof (next_index _ next rest I1) as Hidx.
    destruct (awaited_split (workers p) w _
                (Awaiting (indexOf endpoints next) next) Hw) as [S1 S2].
    simpl in S1, S2. rewrite S1 in E1, E2, E3.
    apply NoDup_app in E1 as (N1 & N2 & N3).
    apply NoDup_cons in N3 as [N3 N4].
    assert (Hfresh : forall i,
               i ∈ awaitedIndices (take w (workers p))
                   ++ idx :: awaitedIndices (drop (S w) (workers p)) ->
               i <> indexOf endpoints next).
    { intros i Hi. specialize (E2 i Hi). lia. }
    constructor; simpl; rewrite S2.
    + apply NoDup_app. split; [done|]. split.
      * intros i Hi Hi'. apply elem_of_cons in Hi' as [->|Hi'].
        -- apply (Hfresh (indexOf endpoints next)); [set_solver|done].
        -- apply (N2 i Hi). by right.
      * apply NoDup_cons. split; [|done].
        intros Hi. apply (Hfresh (indexOf endpoints next)); [set_solver|done].
    + intros i Hi. rewrite length_app. simpl.
      apply elem_of_app in Hi as [Hi|Hi].
      * assert (i < Z.of_nat (length (claims p))) by (apply E2; set_solver).
        lia.
      * apply elem_of_cons in Hi as [->|Hi]; [lia|].
        assert (i < Z.of_nat (length (claims p))) by (apply E2; set_solver).
        lia.
    + rewrite E3, !list_to_set_app_L. simpl.
      assert (idx ∉ awaitedIndices (take w (workers p))).
      { intros Hi. apply (N2 idx Hi). by left. }
      set_solver.
Qed.

Lemma spawn_exact n :
  (n <= length endpoints)%nat ->
  ExactProgress (Nat.iter n (spawn endpoints) (emptyPool endpoints)).
Proof.
  induction n as [|n IH]; intros Hn.
  - constructor; simpl; [constructor|set_solver|done].
  - destruct IH as [E1 E2 E3]; [lia|].
    destruct (spawn_phase endpoints n) as (I1 & I2 & _); [lia|].
    change (Nat.iter (S n) (spawn endpoints) (emptyPool endpoints))
      with (spawn endpoints (Nat.iter n (spawn endpoints) (emptyPool endpoints))).
    set (p := Nat.iter n (spawn endpoints) (emptyPool endpoints)) in *.
    assert (Hq : queue p <> []).
    { intros Hq. rewrite Hq, app_nil_r in I1.
      apply (f_equal length) in I1. rewrite length_map in I1. lia. }
    unfold spawn, claimNext.
    destruct (queue p) as [|next rest] eqn:Hq'; [done|].
    pose proof (next_index _ next rest I1) as Hidx.
    constructor; simpl; unfold awaitedIndices in *; rewrite omap_app; simpl.
    + apply NoDup_app. split; [done|]. split; [|apply NoDup_singleton].
      intros i Hi Hi'. apply list_elem_of_singleton in Hi'. subst i.
      specialize (E2 _ Hi). lia.
    + intros i Hi. rewrite length_app. simpl.
      apply elem_of_app in Hi as [Hi|Hi].
      * specialize (E2 _ Hi). lia.
      * apply list_elem_of_singleton in Hi. lia.
    + rewrite E3, list_to_set_app_L. simpl. set_solver.
Qed.

Lemma run_exact poolSize sched :
  forall (m m' : Machine Endpoint),
    PoolInvariant endpoints poolSize (poolOf m) ->
    ExactProgress (poolOf m) ->
    runSchedule endpoints sched m = Some m' ->
    ExactProgress (poolOf m').
Proof.
  induction sched as [|[w o] sched IH]; intros m m' Hinv Hex Hrun;
    simpl in Hrun.
  - by simplify_eq.
  - destruct m as [p|]; [|done].
    destruct (settle endpoints w o p) as [m1|] eqn:Hs; [|done].
    eapply IH; [| |done].
    + by eapply settle_invariant.
    + destruct (settle_cases _ _ _ _ _ Hs) as (idx & ep & Hw & Hm).
      destruct o; subst m1; simpl in *; eauto using resume_exact.
Qed.

(** X25: when the endpoints of the batch are pairwise distinct, the
    in-progress set that the spinner shows is, at every instant, exactly
    the set of batch positions of the tasks in flight, and its size is the
    number of tasks in flight. *)
Theorem in_progress_is_exact concurrency sched (m : Machine Endpoint) :
  runSchedule endpoints sched (Running (start endpoints concurrency)) = Some m ->
  inProgress (poolOf m) = list_to_set (awaitedIndices (workers (poolOf m)))
  /\ size (inProgress (poolOf m)) = inFlight (poolOf m)
  /\ forall i ep, Awaiting i ep ∈ workers (poolOf m) -> i ∈ inProgress (poolOf m).
Proof.
  intros Hrun.
  destruct (start_invariant endpoints concurrency) as [Hinv _].
  assert (Hex0 : ExactProgress (start endpoints concurrency)).
  { unfold start. apply spawn_exact. lia. }
  destruct (run_exact _ sched (Running (start endpoints concurrency)) m
              Hinv Hex0 Hrun) as [E1 E2 E3].
  split; [done|]. split.
  - rewrite E3, size_list_to_set by done.
    unfold inFlight. apply inFlight_indices.
  - intros i ep Hin. rewrite E3. apply elem_of_list_to_set.
    unfold awaitedIndices. apply list_elem_of_omap.
    by exists (Awaiting i ep).
Qed.

End Progress.

Lemma in_progress_is_exact_witness :
  size (inProgress (start fiveEndpoints 2)) = 2%nat.
Proof.
  destruct (in_progress_is_exact fiveEndpoints) with (concurrency := 2)
    (sched := @nil (nat * TaskOutcome string))
    (m := Running (start fiveEndpoints 2)) as (_ & H & _).
  - unfold fiveEndpoints. repeat (apply NoDup_cons; split; [set_solver|]).
    apply NoDup_nil_2.
  - reflexivity.
  - exact H.
Defined.

End ProgressMore.

(** ** Progress spinner: the ranges shown *)

Module SpinnerFacts.
Import Spinner.

Lemma scanRanges_cover rest :
  forall rangeStart rangeEnd i,
    rangeStart <= rangeEnd ->
    StronglySorted Z.lt (rangeEnd :: rest) ->
    (exists r, r ∈ scanRanges rangeStart rangeEnd rest /\ fst r <= i <= snd r)
    <-> (rangeStart <= i <= rangeEnd \/ i ∈ rest).
Proof.
  induction rest as [|x rest IH]; intros s e i Hse Hsorted; simpl.
  - split.
    + intros (r & Hr & Hi). apply list_elem_of_singleton in Hr. subst r.
      by left.
    + intros [Hi|Hi]; [|by apply elem_of_nil in Hi].
      exists (s, e). split; [apply list_elem_of_singleton|]; done.
  - apply StronglySorted_inv in Hsorted as [Htail Hhead].
    pose proof (Forall_inv Hhead) as Hex. simpl in Hex.
    destruct (Z.eqb_spec x (e + 1)) as [->|Hne].
    + rewrite (IH s (e + 1) i) by (done || lia).
      rewrite elem_of_cons. naive_solver lia.
    + assert (Hxx : x <= x) by lia.
      pose proof (IH x x i Hxx Htail) as IHx.
      rewrite elem_of_cons. split.
      * intros (r & Hr & Hi). apply elem_of_cons in Hr as [->|Hr].
        -- by left.
        -- right. destruct (proj1 IHx) as [?|?]; [by exists r| |];
             [left; lia|by right].
      * intros [Hi|Hi].
        -- exists (s, e). split; [left|done].
        -- destruct (proj2 IHx) as (r & Hr & Hri).
           { destruct Hi as [->|Hi]; [left; lia|by right]. }
           exists r. split; [by right|done].
Qed.

Lemma scanRanges_head rangeStart rangeEnd rest :
  exists rangeEnd' tail,
    scanRanges rangeStart rangeEnd rest = (rangeStart, rangeEnd') :: tail.
Proof.
  revert rangeStart rangeEnd.
  induction rest as [|x rest IH]; intros s e; simpl; [by eexists _, _|].
  destruct (x =? e + 1); [apply IH|by eexists _, _].
Qed.

Lemma scanRanges_apart rest :
  forall rangeStart rangeEnd,
    rangeStart <= rangeEnd ->
    StronglySorted Z.lt (rangeEnd :: rest) ->
    Sorted apart (scanRanges rangeStart rangeEnd rest)
    /\ Forall (fun r => fst r <= snd r) (scanRanges rangeStart rangeEnd rest).
Proof.
  induction rest as [|x rest IH]; intros s e Hse Hsorted; simpl.
  - split; repeat constructor. done.
  - apply StronglySorted_inv in Hsorted as [Htail Hhead].
    pose proof (Forall_inv Hhead) as Hex. simpl in Hex.
    destruct (Z.eqb_spec x (e + 1)) as [->|Hne].
    + apply IH; [lia|done].
    + destruct (IH x x) as [IH1 IH2]; [lia|done|].
      destruct (scanRanges_head x x rest) as (e' & tail & Heq).
      rewrite Heq in *.
      split; constructor; try done.
      constructor. unfold apart. simpl. lia.
Qed.

Lemma strictly_sorted (l : list Z) :
  StronglySorted Z.le l -> NoDup l -> StronglySorted Z.lt l.
Proof.
  induction 1 as [|x l Hl IH Hhead]; intros Hnd; constructor.
  - apply IH. by apply NoDup_cons in Hnd as [_ ?].
  - apply NoDup_cons in Hnd as [Hx _].
    apply Forall_forall. intros y Hy.
    pose proof (proj1 (Forall_forall _ _) Hhead y Hy) as Hle.
    assert (x <> y) by (intros ->; done). lia.
Qed.

Lemma sortedIndices_spec (inProgress : gset Z) :
  StronglySorted Z.lt (sortedIndices inProgress)
  /\ forall i, i ∈ sortedIndices inProgress <-> i ∈ inProgress.
Proof.
  unfold sortedIndices. split.
  - apply strictly_sorted.
    + apply StronglySorted_merge_sort; apply _.
    + rewrite merge_sort_Permutation. apply NoDup_elements.
  - intros i. rewrite merge_sort_Permutation. apply elem_of_elements.
Qed.

(** X26: the ranges the spinner shows cover the in-progress set exactly: an
    index is in progress if and only if it lies within one of the
    ranges. *)
Theorem progress_ranges_cover (inProgress : gset Z) i :
  i ∈ inProgress
  <-> exists r, r ∈ progressRanges inProgress /\ fst r <= i <= snd r.
Proof.
  destruct (sortedIndices_spec inProgress) as [Hsorted Hmem].
  rewrite <- Hmem. unfold progressRanges, indexRanges.
  destruct (sortedIndices inProgress) as [|first rest].
  - split; [by intros ?%elem_of_nil|].
    by intros (r & ?%elem_of_nil & _).
  - rewrite (scanRanges_cover rest first first i) by (done || lia).
    rewrite elem_of_cons. naive_solver lia.
Qed.

(** X27: the ranges are maximal runs in ascending order: each range is
    non-empty, and between two successive ranges at least one index is
    missing, so they neither overlap nor touch; there is a range exactly
    when some task is in progress. *)
Theorem progress_ranges_maximal (inProgress : gset Z) :
  Sorted apart (progressRanges inProgress)
  /\ Forall (fun r => fst r <= snd r) (progressRanges inProgress)
  /\ (progressRanges inProgress = [] <-> inProgress = ∅).
Proof.
  destruct (sortedIndices_spec inProgress) as [Hsorted Hmem].
  unfold progressRanges, indexRanges.
  destruct (sortedIndices inProgress) as [|first rest] eqn:Hs.
  - split; [constructor|]. split; [constructor|].
    split; [|done]. intros _. apply set_eq. intros i.
    rewrite <- Hmem. set_solver.
  - destruct (scanRanges_apart rest first first) as [H1 H2]; [lia|done|].
    split; [done|]. split; [done|].
    destruct (scanRanges_head first first rest) as (e' & tail & ->).
    split; [done|]. intros Hempty.
    assert (first ∈ inProgress) as Hin by (apply Hmem; left).
    rewrite Hempty in Hin. set_solver.
Qed.

(** The in-progress set {0, 1, 2, 4} is shown as "1-3, 5". *)
Example spinner_text :
  updateProgressSpinner 3 false {[0; 1; 2; 4]} 2 7
  = Some ("Enhancing endpoints: 2/7 complete (Processing endpoints 1-3, 5)")%string.
Proof. vm_compute. reflexivity. Qed.

End SpinnerFacts.

(** ** Parameter and response enrichment *)

Module EnrichmentFacts.
Import Enrichment.

(** X28: [enhanceParameters] returns exactly one entry per declared
    parameter, in declaration order and carrying the parameter as it was
    declared, whatever the model answered and also when its call failed. *)
Theorem parameters_are_preserved parameters call :
  map original (enhanceParameters parameters call) = parameters.
Proof.
  unfold enhanceParameters. destruct parameters as [|p ps]; [done|].
  destruct call as [es|e]; rewrite map_map.
  - rewrite <- (map_id (p :: ps)) at 2. apply map_ext. intros a.
    unfold mergeParameter. by destruct (find _ es).
  - rewrite <- (map_id (p :: ps)) at 2. by apply map_ext.
Qed.

Lemma find_filter_names (parameters : list NormalizedParameter) param es :
  param ∈ parameters ->
  find (fun p => String.eqb (peName p) (paramName param))
    (List.filter (namesParameter parameters) es)
  = find (fun p => String.eqb (peName p) (paramName param)) es.
Proof.
  intros Hin. induction es as [|e es IH]; [done|]. simpl.
  destruct (String.eqb (peName e) (paramName param)) eqn:Heq.
  - assert (namesParameter parameters e = true) as ->.
    { unfold namesParameter. apply existsb_exists. exists param.
      split; [by apply list_elem_of_In|done]. }
    simpl. by rewrite Heq.
  - destruct (namesParameter parameters e); simpl; [by rewrite Heq|done].
Qed.

(** X29: a parameter takes description, importance and common values from
    the first enhancement that bears its name, and the fallback (critical
    exactly when required) when there is none or when the call failed;
    enhancements that name no declared parameter have no effect on the
    result. *)
Theorem parameters_merge_by_name parameters es failure :
  (forall param,
     param ∈ parameters ->
     mergeParameter es param ∈ enhanceParameters parameters (Integration.Ok es)
     /\ (forall e es1 es2,
           es = es1 ++ e :: es2 ->
           peName e = paramName param ->
           Forall (fun e' => peName e' <> paramName param) es1 ->
           mergeParameter es param
           = {| original := param; epDescription := peDescription e;
                epImportance := peImportance e;
                epCommonValues := peCommonValues e |})
     /\ (Forall (fun e' => peName e' <> paramName param) es ->
         mergeParameter es param = fallbackParameter param))
  /\ enhanceParameters parameters (Integration.Err failure)
     = map fallbackParameter parameters
  /\ enhanceParameters parameters
       (Integration.Ok (List.filter (namesParameter parameters) es))
     = enhanceParameters parameters (Integration.Ok es).
Proof.
  split; [|split].
  - intros param Hin. split; [|split].
    + unfold enhanceParameters. destruct parameters; [by apply elem_of_nil in Hin|].
      by apply list_elem_of_fmap_2.
    + intros e es1 es2 -> Hname Hbefore. unfold mergeParameter.
      assert (find (fun p => String.eqb (peName p) (paramName param))
                (es1 ++ e :: es2) = Some e) as ->; [|done].
      induction Hbefore as [|e' es1 Hne _ IH]; simpl.
      * by rewrite (proj2 (String.eqb_eq _ _) Hname).
      * by rewrite (proj2 (String.eqb_neq _ _) Hne).
    + intros Hnone. unfold mergeParameter.
      assert (find (fun p => String.eqb (peName p) (paramName param)) es = None)
        as ->; [|done].
      induction Hnone as [|e' es' Hne _ IH]; [done|]. simpl.
      by rewrite (proj2 (String.eqb_neq _ _) Hne).
  - unfold enhanceParameters. by destruct parameters.
  - unfold enhanceParameters. destruct parameters as [|p ps]; [done|].
    apply map_ext_in. intros param Hin. unfold mergeParameter.
    rewrite find_filter_names; [done|]. by apply list_elem_of_In.
Qed.

Lemma fold_recordResponse es :
  forall (acc : gmap string EnhancedResponse) code,
    fold_left recordResponse es acc !! code
    = match last (List.filter (fun r => String.eqb (reStatusCode r) code) es) with
      | Some r => Some {| erDescription := reDescription r;
                          erResolutionSteps := reResolutionSteps r |}
      | None => acc !! code
      end.
Proof.
  induction es as [|e es IH]; intros acc code; [done|]. simpl.
  rewrite IH. destruct (String.eqb_spec (reStatusCode e) code) as [<-|Hne].
  - destruct (List.filter _ es) as [|r rs] eqn:Hf; simpl.
    + unfold recordResponse. by rewrite lookup_insert_eq.
    + destruct (last (r :: rs)) eqn:Hl; [done|]. by apply last_None in Hl.
  - destruct (last (List.filter _ es)); [done|].
    unfold recordResponse. by rewrite lookup_insert_ne.
Qed.

(** X30: for an endpoint that declares responses, a successful model call
    yields one entry per status code the model returned, the last
    enhancement of a status code winning, so a declared status code the
    model left out is absent; a failed call yields the fallback for exactly
    the declared status codes, with resolution steps for the codes starting
    with 4 or 5 and none for the others; an endpoint without responses
    yields the empty record in either case. *)
Theorem responses_by_status_code (responses : gmap string string) es failure
    call code :
  enhanceResponses ∅ call = ∅
  /\ (responses <> ∅ ->
      enhanceResponses responses (Integration.Ok es) !! code
      = (fun r => {| erDescription := reDescription r;
                     erResolutionSteps := reResolutionSteps r |})
        <$> last (List.filter (fun r => String.eqb (reStatusCode r) code) es))
  /\ enhanceResponses responses (Integration.Err failure) !! code
     = fallbackResponse code <$> responses !! code
  /\ (forall r,
        enhanceResponses responses (Integration.Err failure) !! code = Some r ->
        is_Some (erResolutionSteps r) <-> isErrorStatus code = true).
Proof.
  assert (Hfail : enhanceResponses responses (Integration.Err failure) !! code
                  = fallbackResponse code <$> responses !! code).
  { unfold enhanceResponses. case_decide as He.
    - subst. by rewrite !lookup_empty.
    - rewrite map_lookup_imap. by destruct (responses !! code). }
  split; [|split; [|split]].
  - unfold enhanceResponses. by case_decide.
  - intros Hne. unfold enhanceResponses. case_decide; [done|].
    rewrite fold_recordResponse, lookup_empty.
    by destruct (last _).
  - done.
  - intros r. rewrite Hfail. destruct (responses !! code) as [d|]; [|done].
    simpl. intros [= <-]. unfold fallbackResponse. simpl.
    destruct (isErrorStatus code); split; (done || by intros [? ?] || eauto).
Qed.

Lemma parameters_merge_by_name_witness :
  mergeParameter
    [{| peName := "limit"; peDescription := "Page size, 1 to 100";
        peImportance := Important; peCommonValues := None |}]%string
    {| paramName := "id"; paramIn := "path"; paramRequired := true;
       paramDescription := "id parameter" |}%string
  ∈ enhanceParameters sampleParameters
      (Integration.Ok
         [{| peName := "limit"; peDescription := "Page size, 1 to 100";
             peImportance := Important; peCommonValues := None |}]%string).
Proof.
  apply (parameters_merge_by_name sampleParameters
           [{| peName := "limit"; peDescription := "Page size, 1 to 100";
               peImportance := Important; peCommonValues := None |}]%string
           (Integration.ApiFailure "")).
  left.
Defined.

End EnrichmentFacts.
